(** * Kinematics engine of the Leee robot: forward kinematics, numeric
      Jacobian, iterative inverse kinematics and quintic trajectory planner.

    Source: [src/human-interface/robotics/robot_kinematics.py]; further
    down, the Euler-angle helper of
    [src/development-tools/examples/python/robot_control_example.py], the
    robot interface of [src/human-interface/robotics/leee_robot.py] and the
    handlers of [src/human-interface/web/app.py].

    Scalars.  The program computes on numpy [float64] values.  They are
    modelled by the real numbers [R]: every arithmetic operation is the exact
    one, so rounding, overflow and NaN are outside the model.  A tolerance
    such as [1e-9] is kept as written.

    Arrays.  A one-dimensional [ndarray] is a [list R], a two-dimensional one
    a row-major [list (list R)] whose rows have one length.  Python
    exceptions are the [Raise] branch of [result]. *)

From stdpp Require Import base list gmap strings.
From Stdlib Require Import Reals Lra Lia.
Import ListNotations.
Open Scope R_scope.

(** ** Exceptions *)

Inductive exn : Type :=
| ValueError
| IndexError
| LinAlgError.

Inductive result (A : Type) : Type :=
| Return (a : A)
| Raise (e : exn).
Arguments Return {A} a.
Arguments Raise {A} e.

Definition bind {A B} (r : result A) (k : A -> result B) : result B :=
  match r with
  | Return a => k a
  | Raise e => Raise e
  end.

Notation "x <- r ;; k" := (bind r (fun x => k))
  (at level 100, r at next level, right associativity).

Fixpoint foldM {A B} (f : A -> B -> result A) (l : list B) (a : A) : result A :=
  match l with
  | [] => Return a
  | x :: l' => a' <- f a x ;; foldM f l' a'
  end.

(** [for i, x in enumerate(l)] *)
Fixpoint enumerate_from {A} (s : nat) (l : list A) : list (nat * A) :=
  match l with
  | [] => []
  | x :: l' => (s, x) :: enumerate_from (S s) l'
  end.

Definition enumerate {A} (l : list A) : list (nat * A) := enumerate_from 0 l.

(** ** The part of numpy the module uses *)

Module np.

Abbreviation vector := (list R).
Abbreviation matrix := (list (list R)).

(** [v[i]] for reading; out of range raises [IndexError]. *)
Definition getitem (v : vector) (i : nat) : result R :=
  match v !! i with
  | Some x => Return x
  | None => Raise IndexError
  end.

(** [M[i, j]] on a matrix whose shape is known to contain [(i, j)]. *)
Definition entry (M : matrix) (i j : nat) : R :=
  nth j (nth i M []) 0.

Definition zeros (n : nat) : vector := replicate n 0.
Definition zeros2 (r c : nat) : matrix := replicate r (zeros c).

Definition eye (n : nat) : matrix :=
  map (fun i => map (fun j => if Nat.eqb i j then 1 else 0) (seq 0 n)) (seq 0 n).

Definition nrows (M : matrix) : nat := length M.
Definition ncols (M : matrix) : nat := length (hd [] M).

Definition col (j : nat) (M : matrix) : vector :=
  map (fun row => nth j row 0) M.

(** [M.T] *)
Definition transpose (M : matrix) : matrix :=
  map (fun j => col j M) (seq 0 (ncols M)).

Definition dot (u v : vector) : R :=
  fold_right Rplus 0 (zip_with Rmult u v).

(** [M @ v] *)
Definition matvec (M : matrix) (v : vector) : vector :=
  map (fun row => dot row v) M.

(** [A @ B] *)
Definition matmul (A B : matrix) : matrix :=
  map (fun row => map (fun j => dot row (col j B)) (seq 0 (ncols B))) A.

Definition vadd (u v : vector) : vector := zip_with Rplus u v.
Definition vscale (c : R) (v : vector) : vector := map (Rmult c) v.

(** [A - B] and [A / c] *)
Definition msub (A B : matrix) : matrix := zip_with (zip_with Rminus) A B.
Definition mdiv (A : matrix) (c : R) : matrix := map (map (fun x => x / c)) A.

(** [np.linalg.norm] of a vector *)
Definition norm (v : vector) : R :=
  sqrt (fold_right Rplus 0 (map (fun x => x * x) v)).

(** [M[:3, :3]] and [M[:3, 3]] *)
Definition rot (M : matrix) : matrix := map (take 3) (take 3 M).
Definition translation (M : matrix) : vector := col 3 (take 3 M).

(** *** Determinant and adjugate, by Laplace expansion *)

Fixpoint remove_at {A} (j : nat) (l : list A) : list A :=
  match l with
  | [] => []
  | x :: l' => match j with
               | O => l'
               | S j' => x :: remove_at j' l'
               end
  end.

Fixpoint det_aux (n : nat) (M : matrix) : R :=
  match n with
  | O => 1
  | S n' =>
      match M with
      | [] => 0
      | row :: rest =>
          fold_right Rplus 0
            (imap (fun j a => (-1) ^ j * a * det_aux n' (map (remove_at j) rest)) row)
      end
  end.

Definition det (M : matrix) : R := det_aux (length M) M.

Definition minor (i j : nat) (M : matrix) : matrix :=
  map (remove_at j) (remove_at i M).

Definition cofactor (M : matrix) (i j : nat) : R :=
  (-1) ^ (i + j) * det (minor i j M).

Definition adjugate (M : matrix) : matrix :=
  map (fun i => map (fun j => cofactor M j i) (seq 0 (length M))) (seq 0 (length M)).

Definition is_square (M : matrix) : bool :=
  forallb (fun row => length row =? length M)%nat M.

(** *** [np.linalg]

    numpy is not part of the repository.  Its LAPACK-backed routines are
    modelled by their contract in exact arithmetic: [inv] and [solve] return
    the unique exact answer when the matrix is regular and raise
    [LinAlgError] when it is singular (or not square); [solve] first checks
    that the right-hand side has as many rows as the matrix and raises
    [ValueError] otherwise, as numpy's gufunc signature [(m,m),(m,n)->(m,n)]
    does. *)

Definition exact_inverse (M : matrix) : matrix :=
  mdiv (adjugate M) (det M).

Definition inv (M : matrix) : result matrix :=
  if negb (is_square M) then Raise LinAlgError
  else if Req_dec_T (det M) 0 then Raise LinAlgError
  else Return (exact_inverse M).

Definition solve (A b : matrix) : result matrix :=
  if negb (is_square A) then Raise LinAlgError
  else if negb (length b =? length A)%nat then Raise ValueError
  else if Req_dec_T (det A) 0 then Raise LinAlgError
  else Return (matmul (exact_inverse A) b).

End np.

Import np.

(** ** RobotKinematics *)

(** One joint: [(a, alpha, d, theta)] *)
Definition DH : Type := (R * R * R * R)%type.

Record RobotKinematics : Type := {
  dh_params : list DH;
  num_joints : nat
}.

(** [__init__] *)
Definition RobotKinematics_init (dh : list DH) : RobotKinematics :=
  {| dh_params := dh; num_joints := length dh |}.

Definition dh_transform (a alpha d theta : R) : matrix :=
  let ct := cos theta in
  let st := sin theta in
  let ca := cos alpha in
  let sa := sin alpha in
  [ [ct; - st * ca;   st * sa; a * ct];
    [st;   ct * ca; - ct * sa; a * st];
    [0;    sa;        ca;      d     ];
    [0;    0;         0;       1     ] ].

(** Body of the loop of [forward_kinematics]. *)
Definition fk_step (joint_angles : vector) (transform : matrix)
    (x : nat * DH) : result matrix :=
  let '(i, (a, alpha, d, theta_offset)) := x in
  q_i <- getitem joint_angles i ;;
  let theta := q_i + theta_offset in
  let link_transform := dh_transform a alpha d theta in
  Return (matmul transform link_transform).

Definition forward_kinematics (self : RobotKinematics)
    (joint_angles : vector) : result matrix :=
  if negb (length joint_angles =? num_joints self)%nat then Raise ValueError
  else foldM (fk_step joint_angles) (enumerate (dh_params self)) (eye 4).

(** *** The chain product as the specification words it *)

(** The standard DH matrix [T_i]. *)
Definition standard_dh_matrix (a alpha d theta : R) : matrix :=
  [ [cos theta; - sin theta * cos alpha;   sin theta * sin alpha; a * cos theta];
    [sin theta;   cos theta * cos alpha; - cos theta * sin alpha; a * sin theta];
    [0;           sin alpha;               cos alpha;             d            ];
    [0;           0;                       0;                     1            ] ].

(** [T_i] with theta = joint_vector[i] + theta_offset, for every link. *)
Definition link_transforms (dh : list DH) (joint_vector : vector) : list matrix :=
  zip_with (fun '(a, alpha, d, theta_offset) q_i =>
              standard_dh_matrix a alpha d (q_i + theta_offset))
           dh joint_vector.

(** Left-to-right product starting from the identity:
    [(((I @ T_0) @ T_1) @ ...) @ T_{N-1}]. *)
Definition chain_product (Ts : list matrix) : matrix :=
  fold_left matmul Ts (eye 4).

(** *** Jacobian by central differences *)

Definition epsilon : R := 1e-6.

(** [x = v.copy(); x[i] = f(x[i])]: the copy is private, so the update is a
    value; an index out of range raises [IndexError]. *)
Definition copy_update (v : vector) (i : nat) (f : R -> R) : result vector :=
  match v !! i with
  | Some x => Return (<[i := f x]> v)
  | None => Raise IndexError
  end.

(** [J[r:r+len(vals), i] = vals] *)
Fixpoint assign_col (J : matrix) (r i : nat) (vals : vector) : matrix :=
  match vals with
  | [] => J
  | x :: vals' => assign_col (alter (fun row => <[i := x]> row) r J) (S r) i vals'
  end.

(** Computations that log the joint vectors [forward_kinematics] is
    evaluated at. *)
Definition logged (A : Type) : Type := (result A * list vector)%type.

Definition lret {A} (a : A) : logged A := (Return a, []).

Definition lbind {A B} (m : logged A) (k : A -> logged B) : logged B :=
  match m with
  | (Return a, l) => let '(r, l') := k a in (r, l ++ l')
  | (Raise e, l) => (Raise e, l)
  end.

Definition lift {A} (r : result A) : logged A := (r, []).

Notation "x <~ m ;; k" := (lbind m (fun x => k))
  (at level 100, m at next level, right associativity).

Fixpoint lfoldM {A B} (f : A -> B -> logged A) (l : list B) (a : A) : logged A :=
  match l with
  | [] => lret a
  | x :: l' => a' <~ f a x ;; lfoldM f l' a'
  end.

Definition call_forward_kinematics (self : RobotKinematics)
    (joint_angles : vector) : logged matrix :=
  (forward_kinematics self joint_angles, [joint_angles]).

(** Body of the loop of [compute_jacobian]. *)
Definition jacobian_step (self : RobotKinematics) (joint_angles : vector)
    (jacobian : matrix) (i : nat) : logged matrix :=
  angles_plus <~ lift (copy_update joint_angles i (fun x => x + epsilon)) ;;
  pose_plus <~ call_forward_kinematics self angles_plus ;;
  angles_minus <~ lift (copy_update joint_angles i (fun x => x - epsilon)) ;;
  pose_minus <~ call_forward_kinematics self angles_minus ;;
  let diff := mdiv (msub pose_plus pose_minus) (2 * epsilon) in
  let jacobian := assign_col jacobian 0 i (translation diff) in
  let jacobian :=
    assign_col jacobian 3 i
      (vscale 0.5 [ entry diff 2 1 - entry diff 1 2;
                    entry diff 0 2 - entry diff 2 0;
                    entry diff 1 0 - entry diff 0 1 ]) in
  lret jacobian.

Definition compute_jacobian_logged (self : RobotKinematics)
    (joint_angles : vector) : logged matrix :=
  lfoldM (jacobian_step self joint_angles)
         (seq 0 (num_joints self)) (zeros2 6 (num_joints self)).

Definition compute_jacobian (self : RobotKinematics)
    (joint_angles : vector) : result matrix :=
  fst (compute_jacobian_logged self joint_angles).

(** The column as the specification words it: translation difference over
    [2 * epsilon], then half the skew-symmetric-to-vector extraction of the
    rotation difference over [2 * epsilon]. *)
Definition vee (S : matrix) : vector :=
  [ entry S 2 1 - entry S 1 2;
    entry S 0 2 - entry S 2 0;
    entry S 1 0 - entry S 0 1 ].

Definition central_difference_column (pose_plus pose_minus : matrix) : vector :=
  map (fun x => x / (2 * epsilon))
      (zip_with Rminus (translation pose_plus) (translation pose_minus))
  ++ vscale 0.5 (vee (mdiv (msub (rot pose_plus) (rot pose_minus)) (2 * epsilon))).

(** *** Inverse kinematics *)

Definition max_iterations : nat := 100.
Definition tolerance : R := 1e-6.
Definition learning_rate : R := 0.1.

(** [P @ v] with numpy's shape check. *)
Definition matvec_checked (P : matrix) (v : vector) : result vector :=
  if forallb (fun row => length row =? length v)%nat P
  then Return (matvec P v)
  else Raise ValueError.

(** [q += x]: shapes equal, or [x] of length one is broadcast. *)
Definition iadd (q x : vector) : result vector :=
  if (length x =? length q)%nat then Return (vadd q x)
  else if (length x =? 1)%nat then Return (map (fun y => y + hd 0 x) q)
  else Raise ValueError.

(** What one pass through the loop body does to the control flow. *)
Inductive iteration : Type :=
| Converged                 (* [return joint_angles] *)
| PinvFailed                (* [except LinAlgError: return None] *)
| Updated (q' : vector).    (* [joint_angles += ...], next pass *)

(** [A @ B] on two-dimensional arrays, with numpy's shape check: [A] must
    have as many columns as [B] has rows, or [ValueError] is raised. *)
Definition matmul_checked (A B : matrix) : result matrix :=
  if (ncols A =? nrows B)%nat then Return (matmul A B) else Raise ValueError.

(** [M[i, j]] for reading; outside the shape raises [IndexError]. *)
Definition getitem2 (M : matrix) (i j : nat) : result R :=
  match M !! i with
  | None => Raise IndexError
  | Some row =>
      match row !! j with
      | Some x => Return x
      | None => Raise IndexError
      end
  end.

(** [M[:r, j]] on an array with at least one row: the slice takes the rows
    there are, a column that does not exist raises [IndexError]. *)
Definition getitem_rows_col (M : matrix) (r j : nat) : result vector :=
  if (j <? ncols M)%nat then Return (col j (take r M)) else Raise IndexError.

(** The six-dimensional error read off [pose_error], in the order of the
    source: [pose_error[:3, 3]], then the six entries of the rotation
    block. *)
Definition error_vector_of (pose_error : matrix) : result vector :=
  position_error <- getitem_rows_col pose_error 3 3 ;;
  e21 <- getitem2 pose_error 2 1 ;;
  e12 <- getitem2 pose_error 1 2 ;;
  e02 <- getitem2 pose_error 0 2 ;;
  e20 <- getitem2 pose_error 2 0 ;;
  e10 <- getitem2 pose_error 1 0 ;;
  e01 <- getitem2 pose_error 0 1 ;;
  let orientation_error := vscale 0.5 [e21 - e12; e02 - e20; e10 - e01] in
  Return (position_error ++ orientation_error).

(** The store of the arrays alive during a call.  [initial_guess] and
    [joint_angles] are references into it. *)
Abbreviation heap := (list vector).
Abbreviation loc := nat.

Section InverseKinematics.

(** [np.linalg.pinv] is computed by a singular value decomposition and
    raises [LinAlgError] when that does not converge; which matrices these
    are is a matter of the floating-point routine.  It is a parameter of the
    solver: [None] stands for [LinAlgError]. *)
Variable pinv : matrix -> option matrix.

Variable self : RobotKinematics.
Variable target_pose : matrix.

(** The loop body, on the current value of [joint_angles]. *)
Definition ik_iteration (joint_angles : vector) : result iteration :=
  current_pose <- forward_kinematics self joint_angles ;;
  inv_pose <- inv current_pose ;;
  pose_error <- matmul_checked inv_pose target_pose ;;
  error_vector <- error_vector_of pose_error ;;
  let error_norm := norm error_vector in
  if Rlt_dec error_norm tolerance then Return Converged
  else
    jacobian <- compute_jacobian self joint_angles ;;
    match pinv jacobian with
    | None => Return PinvFailed
    | Some P =>
        delta_angles <- matvec_checked P error_vector ;;
        q' <- iadd joint_angles (vscale learning_rate delta_angles) ;;
        Return (Updated q')
    end.

Definition alloc (h : heap) (v : vector) : loc * heap := (length h, h ++ [v]).

(** Outcome of a call: the returned value ([None] is Python's [None]), the
    store afterwards, and the number of passes through the loop body. *)
Record ik_result : Type := {
  returned : result (option loc);
  store : heap;
  passes : nat
}.

(** [for iteration in range(n)].  The body reads the array behind
    [joint_angles] ([forward_kinematics] and [compute_jacobian] only read it
    or copy it) and [+=] writes the new value back into the same array. *)
Fixpoint ik_loop (n : nat) (joint_angles : loc) (h : heap) (done : nat) : ik_result :=
  match n with
  | O => {| returned := Return None; store := h; passes := done |}
  | S n' =>
      match ik_iteration (h !!! joint_angles) with
      | Raise e => {| returned := Raise e; store := h; passes := S done |}
      | Return Converged =>
          {| returned := Return (Some joint_angles); store := h; passes := S done |}
      | Return PinvFailed =>
          {| returned := Return None; store := h; passes := S done |}
      | Return (Updated q') =>
          ik_loop n' joint_angles (<[joint_angles := q']> h) (S done)
      end
  end.

(** [initial_guess] is [None] or a reference to the caller's array;
    [initial_guess.copy()] allocates the array the loop works on. *)
Definition inverse_kinematics (initial_guess : option loc) (h : heap) : ik_result :=
  let '(initial_guess, h) :=
    match initial_guess with
    | None => alloc h (zeros (num_joints self))
    | Some g => (g, h)
    end in
  let '(joint_angles, h) := alloc h (h !!! initial_guess) in
  ik_loop max_iterations joint_angles h 0.

End InverseKinematics.

(** *** The update as the specification words it *)

Section UndampedUpdate.

Variable pinv : matrix -> option matrix.
Variable self : RobotKinematics.
Variable target_pose : matrix.



End UndampedUpdate.

(** ** TrajectoryPlanner *)

Record TrajectoryPlanner : Type := {
  max_velocity : R;
  max_acceleration : R
}.

Definition TrajectoryPlanner_init (max_velocity max_acceleration : R) :
    TrajectoryPlanner :=
  {| max_velocity := max_velocity; max_acceleration := max_acceleration |}.

(** [np.column_stack] of one-dimensional arrays: array [k] becomes column [k];
    arrays of different lengths raise [ValueError]. *)
Definition column_stack (vs : list vector) : result matrix :=
  match vs with
  | [] => Raise ValueError
  | v :: _ =>
      if forallb (fun u => length u =? length v)%nat vs
      then Return (map (fun i => map (fun u => nth i u 0) vs) (seq 0 (length v)))
      else Raise ValueError
  end.

(** [np.linspace(start, stop, num)] *)
Definition linspace (start stop : R) (num : nat) : vector :=
  let step := (stop - start) / INR (num - 1) in
  let y := map (fun i => INR i * step + start) (seq 0 num) in
  if (1 <? num)%nat then <[(num - 1)%nat := stop]> y else y.

(** [M[i] = v] *)
Definition setitem_row (M : matrix) (i : nat) (v : vector) : result matrix :=
  match M !! i with
  | None => Raise IndexError
  | Some row =>
      if (length v =? length row)%nat then Return (<[i := v]> M)
      else Raise ValueError
  end.

Definition boundary_matrix (t0 tf : R) : matrix :=
  [ [1; t0; t0 ^ 2; t0 ^ 3;     t0 ^ 4;      t0 ^ 5];
    [0; 1;  2 * t0; 3 * t0 ^ 2; 4 * t0 ^ 3;  5 * t0 ^ 4];
    [0; 0;  2;      6 * t0;     12 * t0 ^ 2; 20 * t0 ^ 3];
    [1; tf; tf ^ 2; tf ^ 3;     tf ^ 4;      tf ^ 5];
    [0; 1;  2 * tf; 3 * tf ^ 2; 4 * tf ^ 3;  5 * tf ^ 4];
    [0; 0;  2;      6 * tf;     12 * tf ^ 2; 20 * tf ^ 3] ].

(** Body of the sampling loop. *)
Definition sample_step (coefficients : matrix) (acc : matrix * matrix)
    (x : nat * R) : result (matrix * matrix) :=
  let '(position_trajectory, velocity_trajectory) := acc in
  let '(i, t) := x in
  let t_vec := [1; t; t ^ 2; t ^ 3; t ^ 4; t ^ 5] in
  position_trajectory <-
    setitem_row position_trajectory i (matvec (transpose coefficients) t_vec) ;;
  let t_vec_vel := [0; 1; 2 * t; 3 * t ^ 2; 4 * t ^ 3; 5 * t ^ 4] in
  velocity_trajectory <-
    setitem_row velocity_trajectory i (matvec (transpose coefficients) t_vec_vel) ;;
  Return (position_trajectory, velocity_trajectory).

Definition num_points : nat := 100.

Definition plan_trajectory (self : TrajectoryPlanner)
    (start_pos end_pos : vector) (start_vel end_vel : option vector)
    (time_horizon : R) : result (vector * matrix * matrix) :=
  let start_vel := default (zeros (length start_pos)) start_vel in
  let end_vel := default (zeros (length start_pos)) end_vel in
  let t0 := 0 in
  let tf := time_horizon in
  let s0 := start_pos in
  let sf := end_pos in
  let v0 := start_vel in
  let vf := end_vel in
  let a0 := zeros (length start_pos) in
  let af := zeros (length start_pos) in
  let A := boundary_matrix t0 tf in
  b <- column_stack [s0; v0; a0; sf; vf; af] ;;
  coefficients <- solve A b ;;
  let time_points := linspace t0 tf num_points in
  let position_trajectory := zeros2 num_points (length start_pos) in
  let velocity_trajectory := zeros2 num_points (length start_pos) in
  pv <- foldM (sample_step coefficients) (enumerate time_points)
              (position_trajectory, velocity_trajectory) ;;
  Return (time_points, fst pv, snd pv).

(** *** Instances used to run the solver on concrete inputs *)

(** A pose one unit along x from the identity. *)
Definition shifted_pose : matrix :=
  [ [1; 0; 0; 1];
    [0; 1; 0; 0];
    [0; 0; 1; 0];
    [0; 0; 0; 1] ].

(** A [pinv] whose decomposition does not converge. *)
Definition pinv_failing (J : matrix) : option matrix := None.

(** A pose one unit along x and one along y from the identity. *)
Definition raised_pose : matrix :=
  [ [1; 0; 0; 1];
    [0; 1; 0; 1];
    [0; 0; 1; 0];
    [0; 0; 0; 1] ].

(** A target that lacks the fourth column. *)
Definition narrow_target : matrix :=
  [ [1; 0; 0];
    [0; 1; 0];
    [0; 0; 1];
    [0; 0; 0] ].

(** A [pinv] that answers with the transpose: it has the shape of the true
    pseudo-inverse (NxM for an MxN argument) and is the pseudo-inverse of a
    matrix with orthonormal columns. *)
Definition pinv_transpose (J : matrix) : option matrix := Some (transpose J).

(** The pseudo-inverse of a zero matrix: the zero matrix of the transposed
    shape.  It is the exact answer at the Jacobian of a chain without
    joints, which has six rows and no column. *)
Definition pinv_zero (J : matrix) : option matrix :=
  Some (zeros2 (ncols J) (nrows J)).

(** ** Predicates on poses *)

(** A homogeneous transform: bottom row [0 0 0 1]. *)
Definition homogeneous (T : matrix) : Prop :=
  exists r00 r01 r02 tx r10 r11 r12 ty r20 r21 r22 tz : R,
    T = [ [r00; r01; r02; tx];
          [r10; r11; r12; ty];
          [r20; r21; r22; tz];
          [0;   0;   0;   1 ] ].

(** Rᵗ·R = I and det R = 1 on the rotation block. *)
Definition orthonormal (Rm : matrix) : Prop :=
  matmul (transpose Rm) Rm = eye 3 /\ det Rm = 1.

Definition rigid (T : matrix) : Prop :=
  homogeneous T /\ orthonormal (rot T).

(** *** Names for the values the Jacobian loop computes *)

Section JacobianValues.

Variable dh : list DH.
Variable q : vector.

Definition angles_plus (i : nat) : vector := <[i := nth i q 0 + epsilon]> q.
Definition angles_minus (i : nat) : vector := <[i := nth i q 0 - epsilon]> q.

Definition pose_at (angles : vector) : matrix :=
  chain_product (link_transforms dh angles).

Definition diff_at (i : nat) : matrix :=
  mdiv (msub (pose_at (angles_plus i)) (pose_at (angles_minus i))) (2 * epsilon).

(** The six numbers the loop body writes into column [i]. *)
Definition written (i k : nat) : R :=
  nth k [ entry (diff_at i) 0 3; entry (diff_at i) 1 3; entry (diff_at i) 2 3;
          0.5 * (entry (diff_at i) 2 1 - entry (diff_at i) 1 2);
          0.5 * (entry (diff_at i) 0 2 - entry (diff_at i) 2 0);
          0.5 * (entry (diff_at i) 1 0 - entry (diff_at i) 0 1) ] 0.

Definition write_column (J : matrix) (i : nat) : matrix :=
  assign_col
    (assign_col J 0 i (translation (diff_at i))) 3 i
    (vscale 0.5 [ entry (diff_at i) 2 1 - entry (diff_at i) 1 2;
                  entry (diff_at i) 0 2 - entry (diff_at i) 2 0;
                  entry (diff_at i) 1 0 - entry (diff_at i) 0 1 ]).

End JacobianValues.

(** ** Tactics *)

(** Unfolds array operations on matrices written out entry by entry, and
    leaves the real-number constants alone. *)
Ltac np_cbn :=
  cbn [matmul matvec transpose col dot vadd vscale msub mdiv rot translation
       eye zeros zeros2 replicate ncols nrows entry
       det det_aux minor cofactor adjugate exact_inverse remove_at
       map seq hd length take fold_right fold_left zip_with imap nth
       Nat.eqb Nat.add pow compose].

Ltac np_cbn_in H :=
  cbn [matmul matvec transpose col dot vadd vscale msub mdiv rot translation
       eye zeros zeros2 replicate ncols nrows entry
       det det_aux minor cofactor adjugate exact_inverse remove_at
       map seq hd length take fold_right fold_left zip_with imap nth
       Nat.eqb Nat.add pow compose] in H.

(** Splits an equation between two lists of the same visible length. *)
Ltac list_eq :=
  repeat match goal with
         | |- _ :: _ = _ :: _ => apply (f_equal2 cons)
         | |- @nil _ = @nil _ => reflexivity
         end.


(** ** robot_control_example.py

    Source: [src/development-tools/examples/python/robot_control_example.py]. *)

(** [x, y, z = euler_angles] raises [ValueError] unless there are exactly
    three angles. *)
Definition euler_angles_to_rotation_matrix (euler_angles : vector) : result matrix :=
  match euler_angles with
  | [x; y; z] =>
      let Rx := [ [1; 0;     0      ];
                  [0; cos x; - sin x];
                  [0; sin x; cos x  ] ] in
      let Ry := [ [cos y;   0; sin y];
                  [0;       1; 0    ];
                  [- sin y; 0; cos y] ] in
      let Rz := [ [cos z; - sin z; 0];
                  [sin z; cos z;   0];
                  [0;     0;       1] ] in
      Return (matmul (matmul Rz Ry) Rx)
  | _ => Raise ValueError
  end.


(** ** Python values of the messaging layer

    The robot interface and the web back end move JSON values around.  A
    value is [None], a bool, an int, a float (a real number here), a string,
    a list or a dict with string keys. *)

#[warnings="-register-all"]
Inductive pyvalue : Type :=
| PNone
| PBool (b : bool)
| PInt (z : Z)
| PFloat (r : R)
| PStr (s : string)
| PList (l : list pyvalue)
| PDict (d : gmap string pyvalue).

(** [bool(v)] *)
Definition truthy (v : pyvalue) : bool :=
  match v with
  | PNone => false
  | PBool b => b
  | PInt z => negb (Z.eqb z 0)
  | PFloat r => if Req_dec_T r 0 then false else true
  | PStr s => negb (String.eqb s "")
  | PList l => match l with [] => false | _ :: _ => true end
  | PDict d => negb (bool_decide (d = ∅))
  end.

(** [a or b] *)
Definition py_or (a b : pyvalue) : pyvalue := if truthy a then a else b.

(** Exceptions of this layer; [Other] carries the ones named before. *)
Inductive error : Type :=
| AttributeError
| TypeError
| Other (e : exn).

Inductive outcome (A : Type) : Type :=
| Done (a : A)
| Throws (e : error).
Arguments Done {A} a.
Arguments Throws {A} e.

(** [v.get(key, default)]: only a dict has [get]. *)
Definition py_get (v : pyvalue) (key : string) (dflt : pyvalue) : outcome pyvalue :=
  match v with
  | PDict d => Done (default dflt (d !! key))
  | _ => Throws AttributeError
  end.

(** [not result.get("success", False)] is false: the result is a dict whose
    entry [success] is truthy. *)
Definition succeeded (result : pyvalue) : bool :=
  match result with
  | PDict d => truthy (default (PBool false) (d !! "success"))
  | _ => false
  end.

(** ** leee_robot.py

    Source: [src/human-interface/robotics/leee_robot.py].  The coroutines
    are run to completion one after the other, so [await] is sequencing.  The
    websocket and the server behind it are a state [W] with one operation:
    send a message and receive the parsed answer, or fail with the text of
    the exception. *)

Module leee_robot.

Record RobotInterface : Type := {
  host : string;
  port : Z;
  connected : bool
}.

Record RobotController : Type := {
  interface : option RobotInterface
}.

Definition not_connected : pyvalue :=
  PDict {[ "success" := PBool false;
           "error" := PStr "Not connected to robot server" ]}.

Definition not_initialized : pyvalue :=
  PDict {[ "error" := PStr "Controller not initialized" ]}.

Section Transport.

Variable W : Type.

(** [await websocket.send(json.dumps(message))], [await websocket.recv()],
    [json.loads(response)]: [inl text] when one of them raises. *)
Variable exchange : W -> pyvalue -> (string + pyvalue) * W.

Definition send_command (self : RobotInterface) (w : W)
    (command : string) (params : pyvalue) : pyvalue * W :=
  if negb (connected self) then (not_connected, w)
  else
    let message := PDict {[ "command" := PStr command;
                            "params" := py_or params (PDict ∅) ]} in
    match exchange w message with
    | (inr result, w') => (result, w')
    | (inl text, w') =>
        (PDict {[ "success" := PBool false; "error" := PStr text ]}, w')
    end.

Definition get_status (self : RobotInterface) (w : W) : pyvalue * W :=
  send_command self w "get_status" PNone.

Definition move_to_position (self : RobotInterface) (w : W)
    (x y z : pyvalue) : pyvalue * W :=
  let params := PDict {[ "x" := x; "y" := y; "z" := z ]} in
  send_command self w "move_to" params.

Definition execute_task (self : RobotInterface) (w : W)
    (task_name : pyvalue) (task_params : pyvalue) : pyvalue * W :=
  let params := PDict {[ "task_name" := task_name;
                         "task_params" := py_or task_params (PDict ∅) ]} in
  send_command self w "execute_task" params.

Definition get_robot_status (self : RobotController) (w : W) : pyvalue * W :=
  match interface self with
  | None => (not_initialized, w)
  | Some i => get_status i w
  end.

Definition perform_movement (self : RobotController) (w : W)
    (movement_type : string) (kwargs : gmap string pyvalue) : pyvalue * W :=
  match interface self with
  | None => (not_initialized, w)
  | Some i =>
      if String.eqb movement_type "position" then
        move_to_position i w
          (default (PInt 0) (kwargs !! "x"))
          (default (PInt 0) (kwargs !! "y"))
          (default (PInt 0) (kwargs !! "z"))
      else
        (PDict {[ "error" := PStr ("Unsupported movement type: " +:+ movement_type) ]},
         w)
  end.

(** The loop of [run_task_sequence]; [self.interface] is [None] when the
    controller was never initialized, and then [.execute_task] raises
    [AttributeError]. *)
Fixpoint run_tasks (self : RobotController) (w : W)
    (tasks : list (gmap string pyvalue)) (results : list pyvalue)
    : outcome (list pyvalue) * W :=
  match tasks with
  | [] => (Done results, w)
  | task :: tasks' =>
      let task_name := default (PStr "") (task !! "name") in
      let task_params := default (PDict ∅) (task !! "params") in
      match interface self with
      | None => (Throws AttributeError, w)
      | Some i =>
          let '(result, w') := execute_task i w task_name task_params in
          let results := results ++ [result] in
          match py_get result "success" (PBool false) with
          | Throws e => (Throws e, w')
          | Done ok =>
              if negb (truthy ok) then (Done results, w')
              else run_tasks self w' tasks' results
          end
      end
  end.

Definition run_task_sequence (self : RobotController) (w : W)
    (tasks : list (gmap string pyvalue)) : outcome (list pyvalue) * W :=
  run_tasks self w tasks [].

End Transport.

(** An exchange that always fails with the same text. *)
Definition failing_exchange (w : unit) (message : pyvalue)
    : (string + pyvalue) * unit :=
  (inl "connection lost", w).

End leee_robot.

(** ** app.py

    Source: [src/human-interface/web/app.py].  The handlers and the two
    background loops share the global [robot_state] and [control_commands];
    each is modelled as one run on its own over that state.  Random draws and
    the clock are inputs, emitted messages are collected in a list. *)

Module app.

Record RobotState : Type := {
  joint_angles : list pyvalue;
  end_effector_pose : list pyvalue;
  joint_velocities : list pyvalue;
  joint_torques : list pyvalue;
  is_connected : bool;
  last_update : R
}.

(** The module-level [robot_state], with [time.time()] = [now]. *)
Definition initial_state (now : R) : RobotState :=
  {| joint_angles := replicate 6 (PFloat 0);
     end_effector_pose := replicate 6 (PFloat 0);
     joint_velocities := replicate 6 (PFloat 0);
     joint_torques := replicate 6 (PFloat 0);
     is_connected := false;
     last_update := now |}.

Inductive event : Type :=
| Emit (name : string) (payload : pyvalue)
| EmitState (state : RobotState).        (* [emit('state_update', robot_state)] *)

Definition obind {A B} (o : outcome A) (k : A -> outcome B) : outcome B :=
  match o with
  | Done a => k a
  | Throws e => Throws e
  end.

Definition is_not_None (v : pyvalue) : bool :=
  match v with
  | PNone => false
  | _ => true
  end.

(** Position in a list of length [len] that the subscript [i] denotes:
    ints (and bools, which are ints) count from the end when negative;
    anything else is not an index. *)
Definition list_index (len : nat) (i : pyvalue) : outcome nat :=
  let at_int (z : Z) :=
    if ((0 <=? z) && (z <? Z.of_nat len))%Z then Done (Z.to_nat z)
    else if ((- Z.of_nat len <=? z) && (z <? 0))%Z
         then Done (Z.to_nat (Z.of_nat len + z))
         else Throws (Other IndexError) in
  match i with
  | PInt z => at_int z
  | PBool b => at_int (if b then 1%Z else 0%Z)
  | _ => Throws TypeError
  end.

Definition handle_joint_control (data : pyvalue) (robot_state : RobotState)
    : outcome (RobotState * list event) :=
  obind (py_get data "joint_id" PNone) (fun joint_id =>
  obind (py_get data "angle" PNone) (fun angle =>
  if is_not_None joint_id && is_not_None angle then
    obind (list_index (length (joint_angles robot_state)) joint_id) (fun i =>
    let robot_state :=
      {| joint_angles := <[i := angle]> (joint_angles robot_state);
         end_effector_pose := end_effector_pose robot_state;
         joint_velocities := joint_velocities robot_state;
         joint_torques := joint_torques robot_state;
         is_connected := is_connected robot_state;
         last_update := last_update robot_state |} in
    Done (robot_state,
          [ Emit "control_ack"
              (PDict {[ "joint_id" := joint_id; "angle" := angle;
                        "status" := PStr "success" ]});
            EmitState robot_state ]))
  else Done (robot_state, []))).

(** The number a Python value stands for in arithmetic with a float. *)
Definition as_float (v : pyvalue) : outcome R :=
  match v with
  | PFloat r => Done r
  | PInt z => Done (IZR z)
  | PBool b => Done (if b then 1 else 0)
  | _ => Throws TypeError
  end.

(** [np.clip(x, -np.pi, np.pi)] *)
Definition clip (x : R) : R := Rmin (Rmax x (- PI)) PI.

(** [for i in ...: angles[i] += noise(i); angles[i] = np.clip(...)] *)
Fixpoint jitter (noise : nat -> R) (indices : list nat) (angles : list pyvalue)
    : outcome (list pyvalue) :=
  match indices with
  | [] => Done angles
  | i :: indices' =>
      match angles !! i with
      | None => Throws (Other IndexError)
      | Some v =>
          obind (as_float v) (fun x =>
          let angles := <[i := PFloat (x + noise i)]> angles in
          let angles := <[i := PFloat (clip (x + noise i))]> angles in
          jitter noise indices' angles)
      end
  end.

Definition getitem_float (l : list pyvalue) (i : nat) : outcome R :=
  match l !! i with
  | None => Throws (Other IndexError)
  | Some v => as_float v
  end.

(** One pass of the loop of [update_robot_state]; [noise i] is the draw
    [np.random.normal(0, 0.01)] for joint [i], [now] is [time.time()]. *)
Definition update_robot_state_pass (noise : nat -> R) (now : R)
    (robot_state : RobotState) : outcome (RobotState * list event) :=
  obind (jitter noise (seq 0 6) (joint_angles robot_state)) (fun angles =>
  obind (getitem_float angles 0) (fun q0 =>
  obind (getitem_float angles 1) (fun q1 =>
  match angles !! 0%nat with
  | None => Throws (Other IndexError)
  | Some a0 =>
      let robot_state :=
        {| joint_angles := angles;
           end_effector_pose :=
             [ PFloat (0.5 * cos q0); PFloat (0.5 * sin q0);
               PFloat (0.3 + 0.2 * sin q1); PFloat 0; PFloat 0; a0 ];
           joint_velocities := joint_velocities robot_state;
           joint_torques := joint_torques robot_state;
           is_connected := is_connected robot_state;
           last_update := now |} in
      Done (robot_state, [EmitState robot_state])
  end))).

(** *** The command queue *)

Record command : Type := {
  command_type : pyvalue;
  parameters : pyvalue;
  timestamp : R
}.

Section Commands.

(** [str(v)], as an f-string formats a value. *)
Variable py_str : pyvalue -> string.

(** The POST handler: [data] is [request.get_json()]. *)
Definition send_command (data : pyvalue) (now : R) (control_commands : list command)
    : outcome (pyvalue * list command * list event) :=
  if negb (truthy data) then
    Done (PDict {[ "status" := PStr "error";
                   "message" := PStr "No data provided" ]},
          control_commands, [])
  else
    obind (py_get data "type" PNone) (fun command_type =>
    obind (py_get data "parameters" (PDict ∅)) (fun parameters =>
    let control_commands :=
      control_commands ++ [ {| command_type := command_type;
                               parameters := parameters;
                               timestamp := now |} ] in
    Done (PDict {[ "status" := PStr "success";
                   "message" := PStr ("Command " +:+ py_str command_type
                                      +:+ " queued") ]},
          control_commands,
          [ Emit "command" (PDict {[ "type" := command_type;
                                     "parameters" := parameters ]}) ]))).

End Commands.

(** One pass of the loop of [process_control_commands]:
    [if control_commands: command = control_commands.pop(0)]. *)
Definition process_control_commands_pass (control_commands : list command)
    : option command * list command :=
  match control_commands with
  | [] => (None, [])
  | c :: rest => (Some c, rest)
  end.

End app.

(** ** Forward kinematics is the chain product *)

Lemma fk_loop_chain (q0 q : vector) (dh : list DH) (T : matrix) :
  length q = length dh ->
  foldM (fk_step (q0 ++ q)) (enumerate_from (length q0) dh) T
  = Return (fold_left matmul (link_transforms dh q) T).
Proof.
  revert q0 q T.
  induction dh as [|[[[a alpha] d] off] dh IH]; intros q0 q T Hlen.
  - destruct q; [reflexivity | discriminate].
  - destruct q as [|x q]; [discriminate|].
    cbn [enumerate_from foldM fk_step].
    unfold getitem.
    rewrite lookup_app_r by lia.
    rewrite Nat.sub_diag. cbn [lookup list_lookup bind].
    specialize (IH (q0 ++ [x]) q).
    rewrite <- app_assoc, length_app in IH. cbn [length app] in IH.
    rewrite Nat.add_1_r in IH.
    rewrite IH by (cbn in Hlen; lia).
    reflexivity.
Qed.

Lemma forward_kinematics_eval (dh : list DH) (q : vector) :
  length q = length dh ->
  forward_kinematics (RobotKinematics_init dh) q
  = Return (fold_left matmul (link_transforms dh q) (eye 4)).
Proof.
  intros Hlen.
  unfold forward_kinematics, RobotKinematics_init; cbn [num_joints dh_params].
  rewrite Hlen, Nat.eqb_refl. cbn [negb].
  apply (fk_loop_chain [] q dh (eye 4) Hlen).
Qed.

(** C1.  For a chain of N DH tuples and a joint vector of length N,
    [forward_kinematics] returns (without raising) the left-to-right product,
    starting from the 4x4 identity, of the standard DH matrices taken at
    theta = joint_vector[i] + theta_offset.  The result is a function of the
    chain and the joint vector alone. *)
Theorem forward_kinematics_chain_product (dh : list DH) (joint_vector : vector) :
  length joint_vector = length dh ->
  forward_kinematics (RobotKinematics_init dh) joint_vector
  = Return (chain_product (link_transforms dh joint_vector)).
Proof.
  intros Hlen. unfold chain_product.
  apply forward_kinematics_eval, Hlen.
Qed.

Lemma forward_kinematics_chain_product_witness :
  forward_kinematics (RobotKinematics_init [(1, 0, 0, 0)]) [0]
  = Return (chain_product (link_transforms [(1, 0, 0, 0)] [0])).
Proof.
  apply (forward_kinematics_chain_product [(1, 0, 0, 0)] [0]).
  reflexivity.
Defined.

(** ** Rigid transforms *)

Lemma eye4_rigid : rigid (eye 4).
Proof.
  split.
  - unfold homogeneous. np_cbn. do 12 eexists. reflexivity.
  - split; np_cbn; list_eq; ring.
Qed.

Lemma dh_transform_rigid (a alpha d theta : R) :
  rigid (dh_transform a alpha d theta).
Proof.
  pose proof (sin2_cos2 theta) as Ht.
  pose proof (sin2_cos2 alpha) as Ha.
  unfold Rsqr in Ht, Ha.
  unfold dh_transform.
  set (ct := cos theta) in *. set (st := sin theta) in *.
  set (ca := cos alpha) in *. set (sa := sin alpha) in *.
  split.
  - do 12 eexists. reflexivity.
  - split; np_cbn; list_eq.
    all: try ring.
    all: try lra.
    + replace (- st * ca * (- st * ca) + (ct * ca * (ct * ca) + (sa * sa + 0)))
        with (ca * ca * (st * st + ct * ct) + sa * sa) by ring.
      rewrite Ht. lra.
    + replace (- st * ca * (st * sa) + (ct * ca * (- ct * sa) + (sa * ca + 0)))
        with (sa * ca * (1 - (st * st + ct * ct))) by ring.
      rewrite Ht. ring.
    + replace (st * sa * (- st * ca) + (- ct * sa * (ct * ca) + (ca * sa + 0)))
        with (sa * ca * (1 - (st * st + ct * ct))) by ring.
      rewrite Ht. ring.
    + replace (st * sa * (st * sa) + (- ct * sa * (- ct * sa) + (ca * ca + 0)))
        with (sa * sa * (st * st + ct * ct) + ca * ca) by ring.
      rewrite Ht. lra.
    + match goal with
      | |- ?lhs = 1 =>
          replace lhs
            with ((st * st + ct * ct) * (sa * sa + ca * ca)
                  - st * st * (1 - (sa * sa + ca * ca)) * 0) by ring
      end.
      rewrite Ht, Ha. ring.
Qed.

Section Block3.
Variables a00 a01 a02 a10 a11 a12 a20 a21 a22 : R.
Variables b00 b01 b02 b10 b11 b12 b20 b21 b22 : R.

Local Abbreviation X := ([[a00; a01; a02]; [a10; a11; a12]; [a20; a21; a22]]).
Local Abbreviation Y := ([[b00; b01; b02]; [b10; b11; b12]; [b20; b21; b22]]).

Lemma gram_matmul_33 :
  matmul (transpose (matmul X Y)) (matmul X Y)
  = matmul (transpose Y) (matmul (matmul (transpose X) X) Y).
Proof. np_cbn. list_eq; ring. Qed.

Lemma matmul_eye_33 : matmul (eye 3) Y = Y.
Proof. np_cbn. list_eq; ring. Qed.

Lemma det_matmul_33 : det (matmul X Y) = det X * det Y.
Proof. np_cbn. ring. Qed.

Lemma orthonormal_matmul_33 :
  orthonormal X -> orthonormal Y -> orthonormal (matmul X Y).
Proof.
  intros [HX DX] [HY DY]. split.
  - rewrite gram_matmul_33, HX, matmul_eye_33. exact HY.
  - rewrite det_matmul_33, DX, DY. ring.
Qed.

Variables s0 s1 s2 t0 t1 t2 : R.

Lemma rot_matmul_homogeneous :
  rot (matmul [ [a00; a01; a02; s0]; [a10; a11; a12; s1];
                [a20; a21; a22; s2]; [0; 0; 0; 1] ]
              [ [b00; b01; b02; t0]; [b10; b11; b12; t1];
                [b20; b21; b22; t2]; [0; 0; 0; 1] ])
  = matmul X Y.
Proof. np_cbn. list_eq; ring. Qed.

Lemma homogeneous_matmul_lit :
  homogeneous
    (matmul [ [a00; a01; a02; s0]; [a10; a11; a12; s1];
              [a20; a21; a22; s2]; [0; 0; 0; 1] ]
            [ [b00; b01; b02; t0]; [b10; b11; b12; t1];
              [b20; b21; b22; t2]; [0; 0; 0; 1] ]).
Proof.
  unfold homogeneous. np_cbn. do 12 eexists.
  list_eq; try reflexivity; ring.
Qed.
End Block3.

Lemma rigid_matmul (A B : matrix) :
  rigid A -> rigid B -> rigid (matmul A B).
Proof.
  intros [HA OA] [HB OB].
  destruct HA as (a00 & a01 & a02 & s0 & a10 & a11 & a12 & s1
                  & a20 & a21 & a22 & s2 & ->).
  destruct HB as (b00 & b01 & b02 & t0 & b10 & b11 & b12 & t1
                  & b20 & b21 & b22 & t2 & ->).
  split.
  - apply homogeneous_matmul_lit.
  - rewrite rot_matmul_homogeneous.
    apply orthonormal_matmul_33; assumption.
Qed.

Lemma chain_rigid (Ts : list matrix) (T : matrix) :
  Forall rigid Ts -> rigid T -> rigid (fold_left matmul Ts T).
Proof.
  intros HTs. revert T.
  induction HTs as [|L Ts HL _ IH]; intros T HT; cbn [fold_left].
  - exact HT.
  - apply IH, rigid_matmul; assumption.
Qed.

Lemma link_transforms_rigid (dh : list DH) (q : vector) :
  Forall rigid (link_transforms dh q).
Proof.
  revert q. induction dh as [|[[[a alpha] d] off] dh IH]; intros q.
  - constructor.
  - destruct q as [|x q]; [constructor|].
    cbn [link_transforms zip_with]. constructor.
    + apply (dh_transform_rigid a alpha d (x + off)).
    + apply IH.
Qed.

Lemma forward_kinematics_rigid (dh : list DH) (q : vector) :
  length q = length dh ->
  exists T, forward_kinematics (RobotKinematics_init dh) q = Return T /\ rigid T.
Proof.
  intros Hlen. eexists. split.
  - apply forward_kinematics_eval, Hlen.
  - apply chain_rigid; [apply link_transforms_rigid | apply eye4_rigid].
Qed.

(** C7.  For every chain and every joint vector of matching length with
    components in [-PI, PI], the rotation block R of the pose returned by
    [forward_kinematics] is orthonormal: every entry of Rᵗ·R is within 1e-9
    of the identity's (they are equal), and det R = 1. *)
Theorem forward_kinematics_rotation_orthonormal (dh : list DH) (q : vector) :
  length q = length dh ->
  Forall (fun x => - PI <= x <= PI) q ->
  exists T,
    forward_kinematics (RobotKinematics_init dh) q = Return T
    /\ (forall i j, (i < 3)%nat -> (j < 3)%nat ->
          Rabs (entry (matmul (transpose (rot T)) (rot T)) i j
                - entry (eye 3) i j) <= 1e-9)
    /\ matmul (transpose (rot T)) (rot T) = eye 3
    /\ det (rot T) = 1.
Proof.
  intros Hlen _.
  destruct (forward_kinematics_rigid dh q Hlen) as (T & HT & _ & Horth & Hdet).
  exists T. repeat split; try assumption.
  intros i j _ _. rewrite Horth.
  unfold Rminus. rewrite Rplus_opp_r, Rabs_R0. lra.
Qed.

Lemma forward_kinematics_rotation_orthonormal_witness :
  exists T,
    forward_kinematics (RobotKinematics_init [(1, 0, 0, 0)]) [0] = Return T
    /\ (forall i j, (i < 3)%nat -> (j < 3)%nat ->
          Rabs (entry (matmul (transpose (rot T)) (rot T)) i j
                - entry (eye 3) i j) <= 1e-9)
    /\ matmul (transpose (rot T)) (rot T) = eye 3
    /\ det (rot T) = 1.
Proof.
  apply (forward_kinematics_rotation_orthonormal [(1, 0, 0, 0)] [0]).
  - reflexivity.
  - constructor; [|constructor]. pose proof PI_RGT_0. lra.
Defined.

(** ** Trajectory planner *)

Lemma boundary_matrix_det (tf : R) :
  det (boundary_matrix 0 tf) = 4 * tf ^ 9.
Proof. unfold boundary_matrix. np_cbn. ring. Qed.

Lemma boundary_matrix_singular_iff (tf : R) :
  det (boundary_matrix 0 tf) = 0 <-> tf = 0.
Proof.
  rewrite boundary_matrix_det. split.
  - intros H. destruct (Req_dec tf 0) as [|Hne]; [assumption|].
    exfalso. apply (pow_nonzero tf 9) in Hne. lra.
  - intros ->. ring.
Qed.

Lemma boundary_matrix_square (t0 tf : R) :
  is_square (boundary_matrix t0 tf) = true.
Proof. reflexivity. Qed.

Lemma setitem_row_length (M M' : matrix) (i : nat) (v : vector) :
  setitem_row M i v = Return M' -> length M' = length M.
Proof.
  unfold setitem_row. destruct (M !! i) as [row|]; [|discriminate].
  destruct (length v =? length row)%nat; [|discriminate].
  intros [= <-]. apply length_insert.
Qed.

Lemma setitem_row_exn (M : matrix) (i : nat) (v : vector) (e : exn) :
  setitem_row M i v = Raise e -> e <> LinAlgError.
Proof.
  unfold setitem_row. destruct (M !! i) as [row|].
  - destruct (length v =? length row)%nat; [discriminate|].
    intros [= <-]. discriminate.
  - intros [= <-]. discriminate.
Qed.

Lemma sample_loop_length (c : matrix) (xs : list (nat * R)) (P V P' V' : matrix) :
  foldM (sample_step c) xs (P, V) = Return (P', V') ->
  length P' = length P /\ length V' = length V.
Proof.
  revert P V. induction xs as [|[i t] xs IH]; intros P V; cbn [foldM].
  - intros [= <- <-]. split; reflexivity.
  - unfold sample_step at 1.
    destruct (setitem_row P i _) as [P1|e] eqn:HP; cbn [bind]; [|discriminate].
    destruct (setitem_row V i _) as [V1|e] eqn:HV; cbn [bind]; [|discriminate].
    intros H. apply IH in H as [-> ->].
    apply setitem_row_length in HP, HV. split; assumption.
Qed.

Lemma sample_loop_exn (c : matrix) (xs : list (nat * R)) (P V : matrix) (e : exn) :
  foldM (sample_step c) xs (P, V) = Raise e -> e <> LinAlgError.
Proof.
  revert P V. induction xs as [|[i t] xs IH]; intros P V; cbn [foldM].
  - discriminate.
  - unfold sample_step at 1.
    destruct (setitem_row P i _) as [P1|e1] eqn:HP; cbn [bind].
    + destruct (setitem_row V i _) as [V1|e2] eqn:HV; cbn [bind].
      * apply IH.
      * intros [= <-]. apply setitem_row_exn in HV. exact HV.
    + intros [= <-]. apply setitem_row_exn in HP. exact HP.
Qed.

Lemma linspace_length (start stop : R) (num : nat) :
  length (linspace start stop num) = num.
Proof.
  unfold linspace. destruct (1 <? num)%nat.
  - rewrite length_insert, length_map, length_seq. reflexivity.
  - rewrite length_map, length_seq. reflexivity.
Qed.

Lemma column_stack_exn (vs : list vector) (e : exn) :
  column_stack vs = Raise e -> e = ValueError.
Proof.
  unfold column_stack. destruct vs as [|v vs]; [congruence|].
  destruct (forallb _ _); [discriminate | congruence].
Qed.

Lemma solve_boundary_LinAlgError (tf : R) (b : matrix) :
  length b = 6%nat ->
  solve (boundary_matrix 0 tf) b = Raise LinAlgError <-> tf = 0.
Proof.
  intros Hb. unfold solve.
  rewrite boundary_matrix_square. cbn [negb].
  rewrite Hb. cbn [length boundary_matrix Nat.eqb negb].
  destruct (Req_dec_T (det (boundary_matrix 0 tf)) 0) as [Hz|Hnz].
  - apply (proj1 (boundary_matrix_singular_iff tf)) in Hz. split; auto.
  - split; [discriminate|].
    intros Htf. exfalso. apply Hnz, (proj2 (boundary_matrix_singular_iff tf)), Htf.
Qed.

Lemma solve_boundary_LinAlgError_only_if (tf : R) (b : matrix) :
  solve (boundary_matrix 0 tf) b = Raise LinAlgError -> tf = 0.
Proof.
  unfold solve. rewrite boundary_matrix_square. cbn [negb].
  destruct (negb _); [discriminate|].
  destruct (Req_dec_T (det (boundary_matrix 0 tf)) 0) as [Hz|Hnz]; [|discriminate].
  intros _. apply (proj1 (boundary_matrix_singular_iff tf)), Hz.
Qed.

Lemma plan_trajectory_LinAlgError_only_if
    (self : TrajectoryPlanner) (start_pos end_pos : vector)
    (start_vel end_vel : option vector) (duration : R) :
  plan_trajectory self start_pos end_pos start_vel end_vel duration
  = Raise LinAlgError -> duration = 0.
Proof.
  unfold plan_trajectory.
  destruct (column_stack _) as [b|e] eqn:Hb; cbn [bind].
  - destruct (solve _ b) as [c|e] eqn:Hc; cbn [bind].
    + destruct (foldM _ _ _) as [[P V]|e] eqn:Hs; cbn [bind]; [discriminate|].
      intros [= ->]. apply sample_loop_exn in Hs. congruence.
    + intros [= ->]. apply solve_boundary_LinAlgError_only_if in Hc. exact Hc.
  - intros [= ->]. apply column_stack_exn in Hb. discriminate.
Qed.

(** C4 (as amended).  The boundary-condition matrix has determinant
    4·duration⁹, so it is singular exactly when duration = 0: for a
    right-hand side of six rows the solver raises [LinAlgError] if and only
    if duration = 0, and [plan_trajectory] can raise [LinAlgError] only when
    duration = 0 (a negative duration does not).  A failure of the solver is
    the result of the call, and every result is either an exception or the
    full set of 100 samples. *)
Theorem plan_trajectory_unsolvable_iff_zero_duration
    (self : TrajectoryPlanner) (start_pos end_pos : vector)
    (start_vel end_vel : option vector) (duration : R) :
  (forall b, length b = 6%nat ->
     (solve (boundary_matrix 0 duration) b = Raise LinAlgError <-> duration = 0))
  /\ (plan_trajectory self start_pos end_pos start_vel end_vel duration
      = Raise LinAlgError -> duration = 0)
  /\ (forall b e,
        column_stack [start_pos; default (zeros (length start_pos)) start_vel;
                      zeros (length start_pos); end_pos;
                      default (zeros (length start_pos)) end_vel;
                      zeros (length start_pos)] = Return b ->
        solve (boundary_matrix 0 duration) b = Raise e ->
        plan_trajectory self start_pos end_pos start_vel end_vel duration = Raise e)
  /\ ((exists e, plan_trajectory self start_pos end_pos start_vel end_vel duration
                 = Raise e)
      \/ (exists ts ps vs,
            plan_trajectory self start_pos end_pos start_vel end_vel duration
            = Return (ts, ps, vs)
            /\ length ts = 100%nat /\ length ps = 100%nat /\ length vs = 100%nat)).
Proof.
  split; [|split; [|split]].
  - intros b Hb. apply solve_boundary_LinAlgError, Hb.
  - apply plan_trajectory_LinAlgError_only_if.
  - intros b e Hb Hc. unfold plan_trajectory. rewrite Hb. cbn [bind].
    rewrite Hc. reflexivity.
  - unfold plan_trajectory.
    destruct (column_stack _) as [b|e] eqn:Hb; cbn [bind]; [|left; eauto].
    destruct (solve _ b) as [c|e] eqn:Hc; cbn [bind]; [|left; eauto].
    destruct (foldM _ _ _) as [[P V]|e] eqn:Hs; cbn [bind]; [|left; eauto].
    right. exists (linspace 0 duration num_points), P, V.
    apply sample_loop_length in Hs as [HP HV].
    split; [reflexivity|]. split; [apply linspace_length|].
    cbn [fst snd]. rewrite HP, HV. unfold zeros2.
    rewrite length_replicate. split; reflexivity.
Qed.

(** C4 as stated fails: with duration = -1 the system is regular and the
    call returns samples instead of raising [LinAlgError]. *)
Lemma plan_trajectory_negative_duration_returns :
  -1 <= 0
  /\ (exists samples,
        plan_trajectory (TrajectoryPlanner_init 1 0.5)
          [0; 0; 0; 0; 0; 0] [1; 1; 1; 1; 1; 1] None None (-1) = Return samples)
  /\ ~ (plan_trajectory (TrajectoryPlanner_init 1 0.5)
          [0; 0; 0; 0; 0; 0] [1; 1; 1; 1; 1; 1] None None (-1) = Raise LinAlgError
        <-> -1 <= 0).
Proof.
  split; [lra|]. split.
  - unfold plan_trajectory, solve.
    cbn [default length zeros replicate column_stack forallb Nat.eqb andb bind].
    rewrite boundary_matrix_square.
    cbn [negb map seq length boundary_matrix Nat.eqb].
    destruct (Req_dec_T _ 0) as [Hz|Hnz].
    + exfalso. apply (proj1 (boundary_matrix_singular_iff (-1))) in Hz. lra.
    + eexists. reflexivity.
  - intros [_ H].
    assert (Hle : -1 <= 0) by lra.
    apply H, plan_trajectory_LinAlgError_only_if in Hle. lra.
Qed.

(** [column_stack] makes one row per coordinate. *)
Lemma column_stack_rows (v : vector) (vs : list vector) (b : matrix) :
  column_stack (v :: vs) = Return b -> length b = length v.
Proof.
  unfold column_stack. destruct (forallb _ _); [|discriminate].
  intros [= <-]. rewrite length_map, length_seq. reflexivity.
Qed.

(** C5 (fails on the code).  The stacked right-hand side has one row per
    coordinate where the solver wants six rows: whenever the positions do not
    have exactly six coordinates, [plan_trajectory] raises [ValueError] and
    returns no sample at all, whatever the duration.  The spec's own scenario
    of three coordinates is the instance below. *)
Theorem plan_trajectory_raises_unless_six_coordinates
    (self : TrajectoryPlanner) (start_pos end_pos : vector)
    (start_vel end_vel : option vector) (duration : R) :
  length start_pos <> 6%nat ->
  plan_trajectory self start_pos end_pos start_vel end_vel duration
  = Raise ValueError.
Proof.
  intros Hd. unfold plan_trajectory.
  destruct (column_stack _) as [b|e] eqn:Hb; cbn [bind].
  - apply column_stack_rows in Hb.
    unfold solve. rewrite boundary_matrix_square. cbn [negb].
    rewrite Hb. cbn [length boundary_matrix].
    destruct (Nat.eqb_spec (length start_pos) 6) as [Heq|Hne]; [contradiction|].
    reflexivity.
  - apply column_stack_exn in Hb. rewrite Hb. reflexivity.
Qed.

Lemma plan_trajectory_raises_unless_six_coordinates_witness :
  plan_trajectory (TrajectoryPlanner_init 0.5 0.2)
    [0.3; 0; 0.2] [0.5; 0.3; 0.4] None None 2
  = Raise ValueError.
Proof.
  apply plan_trajectory_raises_unless_six_coordinates.
  cbn [length]. discriminate.
Defined.

Lemma setitem_row_lookup (M M' : matrix) (i : nat) (v : vector) :
  setitem_row M i v = Return M' ->
  M' !! i = Some v /\ forall j, j <> i -> M' !! j = M !! j.
Proof.
  unfold setitem_row. destruct (M !! i) as [row|] eqn:Hrow; [|discriminate].
  destruct (length v =? length row)%nat; [|discriminate].
  intros [= <-]. split.
  - apply list_lookup_insert_eq. apply lookup_lt_is_Some. eauto.
  - intros j Hj. apply list_lookup_insert_ne. congruence.
Qed.

Lemma sample_loop_below (c : matrix) (ts : vector) (s i : nat) (P V P' V' : matrix) :
  foldM (sample_step c) (enumerate_from s ts) (P, V) = Return (P', V') ->
  (i < s)%nat -> P' !! i = P !! i.
Proof.
  revert s P V. induction ts as [|t ts IH]; intros s P V; cbn [enumerate_from foldM].
  - intros [= <- <-] _. reflexivity.
  - unfold sample_step at 1.
    destruct (setitem_row P s _) as [P1|e] eqn:HP; cbn [bind]; [|discriminate].
    destruct (setitem_row V s _) as [V1|e] eqn:HV; cbn [bind]; [|discriminate].
    intros H Hi. rewrite (IH (S s) P1 V1 H) by lia.
    apply setitem_row_lookup in HP as [_ HP]. apply HP. lia.
Qed.

Lemma sample_loop_first (c : matrix) (t : R) (ts : vector) (P V P' V' : matrix) :
  foldM (sample_step c) (enumerate (t :: ts)) (P, V) = Return (P', V') ->
  P' !! 0%nat
  = Some (matvec (transpose c) [1; t; t ^ 2; t ^ 3; t ^ 4; t ^ 5]).
Proof.
  unfold enumerate. cbn [enumerate_from foldM]. unfold sample_step at 1.
  destruct (setitem_row P 0 _) as [P1|e] eqn:HP; cbn [bind]; [|discriminate].
  destruct (setitem_row V 0 _) as [V1|e] eqn:HV; cbn [bind]; [|discriminate].
  intros H. rewrite (sample_loop_below c ts 1 0 P1 V1 P' V' H) by lia.
  apply setitem_row_lookup in HP as [HP _]. exact HP.
Qed.

(** With six coordinates the call returns, but the stacked right-hand side
    is read the wrong way round: for start_pos = [0, 1, 0, 0, 0, 0] the first
    position sample is the zero vector, not start_pos. *)
Lemma plan_trajectory_six_coordinates_start :
  exists ts ps vs,
    plan_trajectory (TrajectoryPlanner_init 1 0.5)
      [0; 1; 0; 0; 0; 0] [0; 0; 0; 0; 0; 0] None None 1 = Return (ts, ps, vs)
    /\ ps !! 0%nat = Some [0; 0; 0; 0; 0; 0].
Proof.
  unfold plan_trajectory, solve.
  cbn [default length zeros replicate column_stack forallb Nat.eqb andb bind].
  rewrite boundary_matrix_square.
  cbn [negb map seq length boundary_matrix Nat.eqb nth].
  assert (HD : det (boundary_matrix 0 1) = 4) by (rewrite boundary_matrix_det; lra).
  destruct (Req_dec_T _ 0) as [Hz|Hnz].
  - exfalso. apply (proj1 (boundary_matrix_singular_iff 1)) in Hz. lra.
  - cbn [bind].
    match goal with
    | |- context [foldM ?f ?l ?a] =>
        assert (Hrun : exists pv, foldM f l a = Return pv) by (eexists; reflexivity);
        destruct Hrun as [[P' V'] Hrun]; rewrite Hrun
    end.
    cbn [bind fst snd]. do 3 eexists. split; [reflexivity|].
    apply sample_loop_first in Hrun. rewrite Hrun. f_equal.
    unfold exact_inverse. fold (boundary_matrix 0 1). rewrite HD.
    unfold boundary_matrix.
    replace (INR 0 * ((1 - 0) / INR (num_points - 1)) + 0) with 0
      by (cbn [INR]; lra).
    assert (Hc : cofactor [ [1; 0; 0 ^ 2; 0 ^ 3; 0 ^ 4; 0 ^ 5];
                            [0; 1; 2 * 0; 3 * 0 ^ 2; 4 * 0 ^ 3; 5 * 0 ^ 4];
                            [0; 0; 2; 6 * 0; 12 * 0 ^ 2; 20 * 0 ^ 3];
                            [1; 1; 1 ^ 2; 1 ^ 3; 1 ^ 4; 1 ^ 5];
                            [0; 1; 2 * 1; 3 * 1 ^ 2; 4 * 1 ^ 3; 5 * 1 ^ 4];
                            [0; 0; 2; 6 * 1; 12 * 1 ^ 2; 20 * 1 ^ 3] ] 1 0 = 0)
      by (unfold cofactor; np_cbn; ring).
    cbn [matmul matvec transpose col dot mdiv adjugate ncols
              map seq hd length fold_right zip_with nth].
    rewrite Hc.
    list_eq; rewrite ?Rmult_0_l, ?Rmult_0_r, ?Rplus_0_l, ?Rplus_0_r;
      try reflexivity; lra.
Qed.

(** C9.  The limits are stored by the constructor and read by nothing:
    two planners with any limits give the same result, samples or exception,
    on the same input. *)
Theorem plan_trajectory_ignores_limits
    (max_velocity1 max_acceleration1 max_velocity2 max_acceleration2 : R)
    (start_pos end_pos : vector) (start_vel end_vel : option vector)
    (time_horizon : R) :
  max_velocity (TrajectoryPlanner_init max_velocity1 max_acceleration1)
  = max_velocity1
  /\ max_acceleration (TrajectoryPlanner_init max_velocity1 max_acceleration1)
     = max_acceleration1
  /\ plan_trajectory (TrajectoryPlanner_init max_velocity1 max_acceleration1)
       start_pos end_pos start_vel end_vel time_horizon
     = plan_trajectory (TrajectoryPlanner_init max_velocity2 max_acceleration2)
         start_pos end_pos start_vel end_vel time_horizon.
Proof. repeat split. Qed.

(** ** Jacobian *)

Lemma homogeneous_length (T : matrix) : homogeneous T -> length T = 4%nat.
Proof.
  intros (r00 & r01 & r02 & tx & r10 & r11 & r12 & ty
          & r20 & r21 & r22 & tz & ->). reflexivity.
Qed.

Lemma fold_insert_below {A} (f : nat -> A) (d : A) (n s i : nat) (row : list A) :
  (i < s)%nat ->
  nth i (fold_left (fun r j => <[j := f j]> r) (seq s n) row) d = nth i row d.
Proof.
  revert s row. induction n as [|n IH]; intros s row Hi; cbn [seq fold_left].
  - reflexivity.
  - rewrite IH by lia. rewrite !nth_lookup.
    rewrite list_lookup_insert_ne by lia. reflexivity.
Qed.

Lemma fold_insert_length {A} (f : nat -> A) (n s : nat) (row : list A) :
  length (fold_left (fun r j => <[j := f j]> r) (seq s n) row) = length row.
Proof.
  revert s row. induction n as [|n IH]; intros s row; cbn [seq fold_left].
  - reflexivity.
  - rewrite IH. apply length_insert.
Qed.

Lemma fold_insert_nth {A} (f : nat -> A) (d : A) (n s i : nat) (row : list A) :
  (s <= i < s + n)%nat -> (s + n <= length row)%nat ->
  nth i (fold_left (fun r j => <[j := f j]> r) (seq s n) row) d = f i.
Proof.
  revert s row. induction n as [|n IH]; intros s row Hi Hlen; [lia|].
  cbn [seq fold_left].
  destruct (decide (i = s)) as [->|Hne].
  - rewrite fold_insert_below by lia. rewrite nth_lookup.
    rewrite list_lookup_insert_eq by lia. reflexivity.
  - apply IH; [lia|]. rewrite length_insert. lia.
Qed.

Lemma translation_entries (M : matrix) :
  (3 <= length M)%nat ->
  translation M = [entry M 0 3; entry M 1 3; entry M 2 3].
Proof.
  destruct M as [|r0 [|r1 [|r2 M]]]; cbn [length]; try lia.
  intros _. reflexivity.
Qed.

Lemma msub_length (A B : matrix) :
  length (msub A B) = Nat.min (length A) (length B).
Proof. unfold msub. apply length_zip_with. Qed.

Lemma mdiv_length (A : matrix) (c : R) : length (mdiv A c) = length A.
Proof. unfold mdiv. apply length_map. Qed.

Section Jacobian.

Variable dh : list DH.
Variable q : vector.
Hypothesis Hlen : length q = length dh.

Local Abbreviation self := (RobotKinematics_init dh).

Lemma pose_at_rigid (angles : vector) : rigid (pose_at dh angles).
Proof. apply chain_rigid; [apply link_transforms_rigid | apply eye4_rigid]. Qed.

Lemma forward_kinematics_pose_at (angles : vector) :
  length angles = length q ->
  forward_kinematics self angles = Return (pose_at dh angles).
Proof.
  intros H. apply forward_kinematics_eval. congruence.
Qed.

Lemma diff_at_length (i : nat) : length (diff_at dh q i) = 4%nat.
Proof.
  unfold diff_at. rewrite mdiv_length, msub_length.
  rewrite !homogeneous_length by apply pose_at_rigid. reflexivity.
Qed.

Lemma jacobian_step_eval (J : matrix) (i : nat) :
  (i < length q)%nat ->
  jacobian_step self q J i
  = (Return (write_column dh q J i), [angles_plus q i; angles_minus q i]).
Proof.
  intros Hi.
  destruct (lookup_lt_is_Some_2 q i Hi) as [x Hx].
  unfold jacobian_step, copy_update, lift, call_forward_kinematics.
  rewrite Hx. cbn [lbind].
  assert (Hn : nth i q 0 = x) by (rewrite nth_lookup, Hx; reflexivity).
  rewrite !forward_kinematics_pose_at by apply length_insert.
  cbn [lbind lret app].
  unfold write_column, diff_at, angles_plus, angles_minus. rewrite Hn.
  reflexivity.
Qed.

Lemma jacobian_loop_eval (n s : nat) (J : matrix) :
  (s + n <= length q)%nat ->
  lfoldM (jacobian_step self q) (seq s n) J
  = (Return (fold_left (write_column dh q) (seq s n) J),
     flat_map (fun i => [angles_plus q i; angles_minus q i]) (seq s n)).
Proof.
  revert s J. induction n as [|n IH]; intros s J Hs; cbn [seq lfoldM].
  - reflexivity.
  - rewrite jacobian_step_eval by lia. cbn [lbind].
    rewrite IH by lia. reflexivity.
Qed.

Lemma write_column_rows (r0 r1 r2 r3 r4 r5 : vector) (i : nat) :
  write_column dh q [r0; r1; r2; r3; r4; r5] i
  = [ <[i := written dh q i 0]> r0; <[i := written dh q i 1]> r1; <[i := written dh q i 2]> r2;
      <[i := written dh q i 3]> r3; <[i := written dh q i 4]> r4; <[i := written dh q i 5]> r5 ].
Proof.
  unfold write_column.
  rewrite translation_entries by (rewrite diff_at_length; lia).
  reflexivity.
Qed.

Lemma write_columns_rows (n s : nat) (r0 r1 r2 r3 r4 r5 : vector) :
  fold_left (write_column dh q) (seq s n) [r0; r1; r2; r3; r4; r5]
  = map (fun kr : nat * vector =>
           fold_left (fun r j => <[j := written dh q j (fst kr)]> r) (seq s n) (snd kr))
        [(0, r0); (1, r1); (2, r2); (3, r3); (4, r4); (5, r5)]%nat.
Proof.
  revert s r0 r1 r2 r3 r4 r5.
  induction n as [|n IH]; intros s r0 r1 r2 r3 r4 r5; cbn [seq fold_left].
  - reflexivity.
  - rewrite write_column_rows, IH. reflexivity.
Qed.

Lemma jacobian_column (i : nat) :
  (i < length q)%nat ->
  col i (fold_left (write_column dh q) (seq 0 (length q)) (zeros2 6 (length q)))
  = [ written dh q i 0; written dh q i 1; written dh q i 2;
      written dh q i 3; written dh q i 4; written dh q i 5 ].
Proof.
  intros Hi. unfold zeros2. cbn [replicate].
  rewrite write_columns_rows. cbn [map col fst snd].
  rewrite !(fold_insert_nth _ 0 (length q) 0 i)
    by (try lia; unfold zeros; rewrite length_replicate; lia).
  reflexivity.
Qed.

Lemma written_central_difference (i : nat) :
  [ written dh q i 0; written dh q i 1; written dh q i 2;
    written dh q i 3; written dh q i 4; written dh q i 5 ]
  = central_difference_column (pose_at dh (angles_plus q i)) (pose_at dh (angles_minus q i)).
Proof.
  unfold written, diff_at.
  destruct (pose_at_rigid (angles_plus q i)) as [(p00 & p01 & p02 & px & p10 & p11
    & p12 & py & p20 & p21 & p22 & pz & ->) _].
  destruct (pose_at_rigid (angles_minus q i)) as [(m00 & m01 & m02 & mx & m10 & m11
    & m12 & my & m20 & m21 & m22 & mz & ->) _].
  reflexivity.
Qed.

End Jacobian.

Lemma flat_map_pair_length {A B} (f g : A -> B) (l : list A) :
  length (flat_map (fun i => [f i; g i]) l) = (2 * length l)%nat.
Proof. induction l as [|a l IH]; cbn [flat_map app length]; lia. Qed.

(** C6.  For a joint vector of length N, [compute_jacobian] returns a
    matrix of six rows whose column i is: the translation of the forward
    kinematics at the vector with component i increased by epsilon = 1e-6
    minus the translation at component i decreased by epsilon, over
    2·epsilon, followed by 0.5 times the skew-symmetric-to-vector extraction
    of the rotation difference over 2·epsilon.  Forward kinematics is
    evaluated exactly 2N times: at the increased and at the decreased vector
    of each joint, in this order. *)
Theorem compute_jacobian_central_differences (dh : list DH) (q : vector) :
  length q = length dh ->
  exists J log,
    compute_jacobian_logged (RobotKinematics_init dh) q = (Return J, log)
    /\ compute_jacobian (RobotKinematics_init dh) q = Return J
    /\ log = flat_map (fun i => [angles_plus q i; angles_minus q i])
                      (seq 0 (length dh))
    /\ length log = (2 * length dh)%nat
    /\ length J = 6%nat
    /\ forall i x, q !! i = Some x ->
         exists pose_plus pose_minus,
           forward_kinematics (RobotKinematics_init dh) (<[i := x + epsilon]> q)
           = Return pose_plus
           /\ forward_kinematics (RobotKinematics_init dh) (<[i := x - epsilon]> q)
              = Return pose_minus
           /\ col i J = central_difference_column pose_plus pose_minus.
Proof.
  intros Hlen.
  assert (Hrun : compute_jacobian_logged (RobotKinematics_init dh) q
                 = (Return (fold_left (write_column dh q) (seq 0 (length q))
                                      (zeros2 6 (length q))),
                    flat_map (fun i => [angles_plus q i; angles_minus q i])
                             (seq 0 (length q)))).
  { unfold compute_jacobian_logged. cbn [RobotKinematics_init num_joints].
    rewrite <- Hlen. apply jacobian_loop_eval; [exact Hlen | lia]. }
  eexists. eexists. split; [exact Hrun|].
  split; [unfold compute_jacobian; rewrite Hrun; reflexivity|].
  split; [rewrite Hlen; reflexivity|].
  split; [rewrite flat_map_pair_length, length_seq, Hlen; reflexivity|].
  split.
  - unfold zeros2. cbn [replicate].
    rewrite write_columns_rows by assumption. reflexivity.
  - intros i x Hx.
    assert (Hi : (i < length q)%nat) by (apply lookup_lt_is_Some; eauto).
    assert (Hn : nth i q 0 = x) by (rewrite nth_lookup, Hx; reflexivity).
    exists (pose_at dh (angles_plus q i)), (pose_at dh (angles_minus q i)).
    split; [|split].
    + rewrite <- Hn. apply (forward_kinematics_pose_at dh q Hlen).
      apply length_insert.
    + rewrite <- Hn. apply (forward_kinematics_pose_at dh q Hlen).
      apply length_insert.
    + rewrite jacobian_column by assumption.
      apply written_central_difference.
Qed.

Lemma compute_jacobian_central_differences_witness :
  exists J log,
    compute_jacobian_logged (RobotKinematics_init [(1, 0, 0, 0)]) [0]
    = (Return J, log)
    /\ compute_jacobian (RobotKinematics_init [(1, 0, 0, 0)]) [0] = Return J
    /\ log = flat_map (fun i => [angles_plus [0] i; angles_minus [0] i])
                      (seq 0 (length [(1, 0, 0, 0)]))
    /\ length log = (2 * length [(1, 0, 0, 0)])%nat
    /\ length J = 6%nat
    /\ forall i x, [0] !! i = Some x ->
         exists pose_plus pose_minus,
           forward_kinematics (RobotKinematics_init [(1, 0, 0, 0)])
                              (<[i := x + epsilon]> [0])
           = Return pose_plus
           /\ forward_kinematics (RobotKinematics_init [(1, 0, 0, 0)])
                                 (<[i := x - epsilon]> [0])
              = Return pose_minus
           /\ col i J = central_difference_column pose_plus pose_minus.
Proof.
  apply (compute_jacobian_central_differences [(1, 0, 0, 0)] [0]).
  reflexivity.
Defined.

(** ** Inverse kinematics *)

Lemma inv_rigid (P : matrix) :
  rigid P -> exists Pi, inv P = Return Pi /\ matmul Pi P = eye 4.
Proof.
  intros [(r00 & r01 & r02 & tx & r10 & r11 & r12 & ty
           & r20 & r21 & r22 & tz & ->) [_ Hd]].
  np_cbn_in Hd.
  assert (HD : det [ [r00; r01; r02; tx]; [r10; r11; r12; ty];
                     [r20; r21; r22; tz]; [0; 0; 0; 1] ] = 1).
  { etransitivity; [|exact Hd]. np_cbn. ring. }
  unfold inv. cbn [is_square forallb length Nat.eqb andb negb].
  destruct (Req_dec_T _ 0) as [Hz|_]; [rewrite HD in Hz; lra|].
  eexists. split; [reflexivity|].
  unfold exact_inverse. rewrite HD.
  np_cbn. unfold cofactor. np_cbn. list_eq.
  all: first [ field | (etransitivity; [|exact Hd]); field ].
Qed.

Lemma tolerance_pos : 0 < tolerance.
Proof. unfold tolerance. lra. Qed.

(** *** Shapes in the loop body *)

Lemma inv_ncols (P Pi : matrix) :
  inv P = Return Pi -> length P = 4%nat -> ncols Pi = 4%nat.
Proof.
  unfold inv. destruct (negb _); [discriminate|].
  destruct (Req_dec_T _ _); [discriminate|].
  intros [= <-] Hl. unfold exact_inverse, mdiv, adjugate. rewrite Hl. reflexivity.
Qed.

Lemma matmul_checked_inv (P Pi B : matrix) :
  inv P = Return Pi -> length P = 4%nat ->
  matmul_checked Pi B
  = if (length B =? 4)%nat then Return (matmul Pi B) else Raise ValueError.
Proof.
  intros HPi Hl. unfold matmul_checked, nrows.
  rewrite (inv_ncols P Pi HPi Hl), Nat.eqb_sym. reflexivity.
Qed.

Lemma matmul_checked_inv_rows (P Pi B E : matrix) :
  inv P = Return Pi -> length P = 4%nat ->
  matmul_checked Pi B = Return E ->
  length B = 4%nat /\ E = matmul Pi B.
Proof.
  intros HPi Hl. rewrite (matmul_checked_inv P Pi B HPi Hl).
  destruct (Nat.eqb_spec (length B) 4); [|discriminate].
  intros [= <-]. split; [assumption | reflexivity].
Qed.

Lemma matmul_ncols (A B : matrix) :
  A <> [] -> ncols (matmul A B) = ncols B.
Proof.
  destruct A as [|row A]; [congruence|]. intros _.
  unfold matmul, ncols. cbn [map hd]. rewrite length_map, length_seq. reflexivity.
Qed.

Lemma matmul_rows (A B : matrix) :
  Forall (fun row => length row = ncols B) (matmul A B).
Proof.
  unfold matmul. apply Forall_forall. intros row Hin.
  apply list_elem_of_fmap in Hin as (r & -> & _).
  rewrite length_map, length_seq. reflexivity.
Qed.

Lemma getitem2_entry (M : matrix) (i j n : nat) :
  (i < length M)%nat -> Forall (fun row => length row = n) M -> (j < n)%nat ->
  getitem2 M i j = Return (entry M i j).
Proof.
  intros Hi HM Hj. unfold getitem2, entry.
  destruct (lookup_lt_is_Some_2 M i Hi) as [row Hrow]. rewrite Hrow.
  assert (Hr : length row = n).
  { rewrite Forall_forall in HM. apply HM. apply list_elem_of_lookup. eauto. }
  rewrite (nth_lookup_Some M i [] row Hrow).
  destruct (lookup_lt_is_Some_2 row j ltac:(lia)) as [x Hx]. rewrite Hx.
  rewrite (nth_lookup_Some row j 0 x Hx). reflexivity.
Qed.

(** On an array of four rows and at least four columns every read of the
    error vector is inside the shape. *)
Lemma error_vector_of_wide (M : matrix) (n : nat) :
  length M = 4%nat -> Forall (fun row => length row = n) M -> (4 <= n)%nat ->
  error_vector_of M = Return (translation M ++ vscale 0.5 (vee M)).
Proof.
  intros Hl HM Hn. unfold error_vector_of, getitem_rows_col.
  assert (Hc : ncols M = n).
  { destruct M as [|r0 M]; [discriminate|]. apply Forall_cons in HM as [H0 _].
    exact H0. }
  rewrite Hc. destruct (Nat.ltb_spec 3 n); [|lia]. cbn [bind].
  rewrite !(getitem2_entry M _ _ n) by (assumption || lia). reflexivity.
Qed.

Lemma error_vector_of_narrow (M : matrix) :
  (ncols M < 4)%nat -> error_vector_of M = Raise IndexError.
Proof.
  intros Hc. unfold error_vector_of, getitem_rows_col.
  destruct (Nat.ltb_spec 3 (ncols M)); [lia|]. reflexivity.
Qed.

Lemma getitem2_exn (M : matrix) (i j : nat) (e : exn) :
  getitem2 M i j = Raise e -> e = IndexError.
Proof.
  unfold getitem2. destruct (M !! i) as [row|]; [|congruence].
  destruct (row !! j); congruence.
Qed.

Lemma error_vector_of_exn (M : matrix) (e : exn) :
  error_vector_of M = Raise e -> e = IndexError.
Proof.
  unfold error_vector_of, getitem_rows_col.
  destruct (_ <? _)%nat; cbn [bind]; [|congruence].
  repeat match goal with
         | |- context [getitem2 M ?i ?j] =>
             let H := fresh "H" in
             destruct (getitem2 M i j) eqn:H; cbn [bind];
             [|intros [= <-]; apply (getitem2_exn _ _ _ _ H)]
         end.
  discriminate.
Qed.

Lemma error_vector_of_ncols (M : matrix) (v : vector) :
  error_vector_of M = Return v -> (4 <= ncols M)%nat.
Proof.
  unfold error_vector_of, getitem_rows_col.
  destruct (Nat.ltb_spec 3 (ncols M)); [lia|discriminate].
Qed.

Lemma error_vector_length (M : matrix) (v : vector) :
  error_vector_of M = Return v -> length v = 6%nat.
Proof.
  unfold error_vector_of, getitem_rows_col.
  destruct (_ <? _)%nat; cbn [bind]; [|discriminate].
  destruct (getitem2 M 2 1) as [e21|] eqn:H21; cbn [bind]; [|discriminate].
  assert (Hl : (3 <= length M)%nat).
  { unfold getitem2 in H21. destruct (M !! 2%nat) as [row|] eqn:Hrow; [|discriminate].
    apply lookup_lt_Some in Hrow. lia. }
  repeat match goal with
         | |- context [getitem2 M ?i ?j] =>
             destruct (getitem2 M i j); cbn [bind]; [|discriminate]
         end.
  intros [= <-]. rewrite length_app. unfold translation, col, vscale.
  rewrite !length_map, length_take. cbn [length]. lia.
Qed.

Lemma error_vector_eye4 :
  exists e, error_vector_of (eye 4) = Return e /\ norm e = 0.
Proof.
  eexists. split.
  - apply (error_vector_of_wide (eye 4) 4); [reflexivity| |lia].
    repeat constructor.
  - unfold norm, vee. np_cbn. cbn [app map fold_right].
    match goal with |- sqrt ?x = 0 => replace x with 0 by lra end.
    apply sqrt_0.
Qed.

Section Solver.

Variable pinv : matrix -> option matrix.
Variable self : RobotKinematics.
Variable target_pose : matrix.

Local Abbreviation iteration_at := (ik_iteration pinv self target_pose).
Local Abbreviation loop := (ik_loop pinv self target_pose).

(** The three ways out of the loop body, and the way on. *)
Lemma ik_iteration_converged (q : vector) (P Pi E : matrix) (e : vector) :
  forward_kinematics self q = Return P ->
  inv P = Return Pi ->
  matmul_checked Pi target_pose = Return E ->
  error_vector_of E = Return e ->
  norm e < tolerance ->
  iteration_at q = Return Converged.
Proof.
  intros HP HPi HE He Hn. unfold ik_iteration. rewrite HP. cbn [bind].
  rewrite HPi. cbn [bind]. rewrite HE. cbn [bind]. rewrite He. cbn [bind].
  destruct (Rlt_dec _ tolerance); [reflexivity | contradiction].
Qed.

Lemma ik_iteration_pinv_failed (q : vector) (P Pi E : matrix) (e : vector)
    (J : matrix) :
  forward_kinematics self q = Return P ->
  inv P = Return Pi ->
  matmul_checked Pi target_pose = Return E ->
  error_vector_of E = Return e ->
  ~ norm e < tolerance ->
  compute_jacobian self q = Return J ->
  pinv J = None ->
  iteration_at q = Return PinvFailed.
Proof.
  intros HP HPi HE He Hn HJ Hpinv. unfold ik_iteration. rewrite HP. cbn [bind].
  rewrite HPi. cbn [bind]. rewrite HE. cbn [bind]. rewrite He. cbn [bind].
  destruct (Rlt_dec _ tolerance); [contradiction|].
  rewrite HJ. cbn [bind]. rewrite Hpinv. reflexivity.
Qed.



(** *** The loop *)


Lemma ik_loop_frame (n : nat) (ja : loc) (h : heap) (done : nat) (l : loc) :
  l <> ja -> store (loop n ja h done) !! l = h !! l.
Proof.
  intros Hl. revert h done. induction n as [|n IH]; intros h done; cbn [ik_loop].
  - reflexivity.
  - destruct (iteration_at (h !!! ja)) as [[| |q']|e]; cbn [store]; try reflexivity.
    rewrite IH. apply list_lookup_insert_ne. congruence.
Qed.

Lemma ik_loop_returned_loc (n : nat) (ja : loc) (h : heap) (done : nat) (l : loc) :
  returned (loop n ja h done) = Return (Some l) -> l = ja.
Proof.
  revert h done. induction n as [|n IH]; intros h done; cbn [ik_loop].
  - discriminate.
  - destruct (iteration_at (h !!! ja)) as [[| |q']|e]; cbn [returned];
      try congruence.
    apply IH.
Qed.

Lemma ik_loop_exhausted (qs : nat -> vector) (n k : nat) (ja : loc) (h : heap)
    (done : nat) :
  (ja < length h)%nat ->
  h !!! ja = qs k ->
  (forall j, (j < n)%nat -> iteration_at (qs (k + j)%nat)
                            = Return (Updated (qs (k + S j)%nat))) ->
  loop n ja h done
  = {| returned := Return None;
       store := <[ja := qs (k + n)%nat]> h;
       passes := (done + n)%nat |}.
Proof.
  revert k h done. induction n as [|n IH]; intros k h done Hja Hq Hstep;
    cbn [ik_loop].
  - rewrite !Nat.add_0_r. f_equal. symmetry. apply list_insert_id.
    rewrite <- Hq. apply list_lookup_lookup_total_lt, Hja.
  - rewrite Hq. specialize (Hstep 0%nat ltac:(lia)) as H0.
    rewrite Nat.add_0_r in H0. rewrite H0.
    rewrite (IH (S k)).
    + rewrite list_insert_insert_eq.
      replace (S k + n)%nat with (k + S n)%nat by lia.
      replace (S done + n)%nat with (done + S n)%nat by lia.
      reflexivity.
    + rewrite length_insert. exact Hja.
    + rewrite Nat.add_1_r in *. apply list_lookup_total_insert_eq. exact Hja.
    + intros j Hj. specialize (Hstep (S j) ltac:(lia)).
      replace (S k + j)%nat with (k + S j)%nat by lia.
      replace (S k + S j)%nat with (k + S (S j))%nat by lia. exact Hstep.
Qed.

End Solver.

(** *** The solver on a chain without joints *)

Lemma inv_eye4 : inv (eye 4) = Return (mdiv (adjugate (eye 4)) 1).
Proof.
  assert (HD : det (eye 4) = 1) by (np_cbn; ring).
  unfold inv. cbn [is_square eye map seq forallb length Nat.eqb andb negb].
  destruct (Req_dec_T _ 0) as [Hz|_].
  - exfalso. np_cbn_in HD. np_cbn_in Hz. lra.
  - unfold exact_inverse. np_cbn_in HD. np_cbn. rewrite HD. reflexivity.
Qed.

Lemma shifted_error :
  exists E e,
    matmul_checked (mdiv (adjugate (eye 4)) 1) shifted_pose = Return E
    /\ error_vector_of E = Return e
    /\ norm e = 1.
Proof.
  eexists. eexists. split; [reflexivity|]. split.
  - apply (error_vector_of_wide _ 4); [reflexivity| |lia].
    repeat constructor.
  - unfold norm, vee, shifted_pose.
    np_cbn. unfold cofactor. np_cbn. cbn [app map fold_right].
    match goal with |- sqrt ?x = 1 => replace x with 1 by lra end.
    apply sqrt_1.
Qed.

Lemma empty_chain_jacobian :
  compute_jacobian (RobotKinematics_init []) [] = Return (zeros2 6 0).
Proof. reflexivity. Qed.

Lemma empty_chain_pinv_fails :
  ik_iteration pinv_failing (RobotKinematics_init []) shifted_pose []
  = Return PinvFailed.
Proof.
  destruct shifted_error as (E & e & HE & He & Hn).
  apply (ik_iteration_pinv_failed _ _ _ [] (eye 4) (mdiv (adjugate (eye 4)) 1)
           E e (zeros2 6 0)).
  - reflexivity.
  - apply inv_eye4.
  - exact HE.
  - exact He.
  - rewrite Hn. unfold tolerance. lra.
  - apply empty_chain_jacobian.
  - reflexivity.
Qed.

Lemma empty_chain_updates :
  ik_iteration pinv_zero (RobotKinematics_init []) shifted_pose []
  = Return (Updated []).
Proof.
  destruct shifted_error as (E & e & HE & He & Hn).
  unfold ik_iteration.
  change (forward_kinematics (RobotKinematics_init []) []) with (Return (eye 4)).
  cbn [bind]. rewrite inv_eye4. cbn [bind]. rewrite HE. cbn [bind].
  rewrite He. cbn [bind].
  destruct (Rlt_dec _ tolerance) as [Hlt|_].
  - rewrite Hn in Hlt. unfold tolerance in Hlt. lra.
  - rewrite empty_chain_jacobian. cbn [pinv_zero ncols nrows zeros2 zeros hd length
      replicate matvec_checked forallb bind matvec map vscale iadd Nat.eqb].
    assert (Hl : length e = 6%nat) by exact (error_vector_length _ _ He).
    destruct e as [|? e]; [discriminate|]. reflexivity.
Qed.

(** *** The call *)

Lemma inverse_kinematics_unfold (pinv : matrix -> option matrix)
    (self : RobotKinematics) (target_pose : matrix) (g : option loc) (h : heap) :
  inverse_kinematics pinv self target_pose g h
  = match g with
    | Some l =>
        ik_loop pinv self target_pose max_iterations (length h)
                (h ++ [h !!! l]) 0
    | None =>
        ik_loop pinv self target_pose max_iterations (S (length h))
                ((h ++ [zeros (num_joints self)]) ++ [zeros (num_joints self)]) 0
    end.
Proof.
  unfold inverse_kinematics, alloc. destruct g as [l|].
  - reflexivity.
  - rewrite length_app. cbn [length]. rewrite Nat.add_1_r.
    rewrite (list_lookup_total_middle h []) by reflexivity. reflexivity.
Qed.

(** C10.  Every array that exists before the call, the caller's
    [initial_guess] among them, holds the same value after it, whether the
    call returns a solution, returns [None] or raises: the updates go to a
    copy allocated by the call, and a returned solution is that copy. *)
Theorem inverse_kinematics_preserves_initial_guess
    (pinv : matrix -> option matrix) (self : RobotKinematics)
    (target_pose : matrix) (initial_guess : option loc) (h : heap) (l : loc) :
  (l < length h)%nat ->
  store (inverse_kinematics pinv self target_pose initial_guess h) !! l = h !! l
  /\ (forall s,
        returned (inverse_kinematics pinv self target_pose initial_guess h)
        = Return (Some s) -> (length h <= s)%nat).
Proof.
  intros Hl. rewrite inverse_kinematics_unfold.
  destruct initial_guess as [g|]; split.
  - rewrite ik_loop_frame by lia. apply lookup_app_l, Hl.
  - intros s Hs. apply ik_loop_returned_loc in Hs. lia.
  - rewrite ik_loop_frame by lia.
    rewrite <- app_assoc. apply lookup_app_l, Hl.
  - intros s Hs. apply ik_loop_returned_loc in Hs. lia.
Qed.

Lemma inverse_kinematics_preserves_initial_guess_witness :
  store (inverse_kinematics pinv_failing (RobotKinematics_init [(1, 0, 0, 0)])
           shifted_pose (Some 0%nat) [[0]]) !! 0%nat
  = [[0]] !! 0%nat
  /\ (forall s,
        returned (inverse_kinematics pinv_failing
                    (RobotKinematics_init [(1, 0, 0, 0)])
                    shifted_pose (Some 0%nat) [[0]])
        = Return (Some s) -> (length [[0]] <= s)%nat).
Proof.
  apply (inverse_kinematics_preserves_initial_guess pinv_failing
           (RobotKinematics_init [(1, 0, 0, 0)]) shifted_pose (Some 0%nat)
           [[0]] 0%nat).
  cbn [length]. lia.
Defined.

Lemma ik_loop_converged (pinv : matrix -> option matrix) (self : RobotKinematics)
    (target_pose : matrix) (n : nat) (ja : loc) (h : heap) (done : nat)
    (P Pi E : matrix) (e : vector) :
  forward_kinematics self (h !!! ja) = Return P ->
  inv P = Return Pi ->
  matmul_checked Pi target_pose = Return E ->
  error_vector_of E = Return e ->
  norm e < tolerance ->
  ik_loop pinv self target_pose (S n) ja h done
  = {| returned := Return (Some ja); store := h; passes := S done |}.
Proof.
  intros HP HPi HE He Hn. cbn [ik_loop].
  rewrite (ik_iteration_converged pinv self target_pose _ P Pi E e HP HPi HE He Hn).
  reflexivity.
Qed.

(** At the pose that forward kinematics gives, the pose error is the
    identity and the error vector is zero. *)
Lemma error_at_own_pose (T Ti : matrix) :
  rigid T -> inv T = Return Ti -> matmul Ti T = eye 4 ->
  exists e,
    matmul_checked Ti T = Return (eye 4)
    /\ error_vector_of (eye 4) = Return e
    /\ norm e < tolerance.
Proof.
  intros Hrigid HTi Hmul.
  destruct error_vector_eye4 as (e & He & Hn). exists e.
  split; [|split; [exact He | rewrite Hn; apply tolerance_pos]].
  assert (Hl : length T = 4%nat) by apply homogeneous_length, Hrigid.
  rewrite (matmul_checked_inv T Ti T HTi Hl), Hl, Hmul. reflexivity.
Qed.

(** C2.  Started from q on the pose that forward kinematics gives at q (q
    of the chain's length; no further condition on q is needed), the solver
    returns a solution after one pass: a fresh array holding q, whose forward
    kinematics is within 1e-4 of the target in every entry.  In general, a
    pass that finds the norm of the six-dimensional error vector below the
    tolerance 1e-6 ends the call with success and returns the current
    iterate, unchanged. *)
Theorem inverse_kinematics_round_trip
    (pinv : matrix -> option matrix) (dh : list DH) (q : vector)
    (h : heap) (g : loc) :
  length q = length dh ->
  h !! g = Some q ->
  exists target,
    forward_kinematics (RobotKinematics_init dh) q = Return target
    /\ (exists l solution reached,
          returned (inverse_kinematics pinv (RobotKinematics_init dh) target
                      (Some g) h) = Return (Some l)
          /\ store (inverse_kinematics pinv (RobotKinematics_init dh) target
                      (Some g) h) !! l = Some solution
          /\ forward_kinematics (RobotKinematics_init dh) solution = Return reached
          /\ forall i j, Rabs (entry reached i j - entry target i j) <= 1e-4)
    /\ (forall (self : RobotKinematics) (target_pose : matrix) (n : nat)
               (joint_angles : loc) (h' : heap) (done : nat)
               (P Pi pose_error : matrix) (error_vector : vector),
          forward_kinematics self (h' !!! joint_angles) = Return P ->
          inv P = Return Pi ->
          matmul_checked Pi target_pose = Return pose_error ->
          error_vector_of pose_error = Return error_vector ->
          norm error_vector < tolerance ->
          tolerance = 1e-6
          /\ ik_loop pinv self target_pose (S n) joint_angles h' done
             = {| returned := Return (Some joint_angles);
                  store := h';
                  passes := S done |}).
Proof.
  intros Hlen Hg.
  destruct (forward_kinematics_rigid dh q Hlen) as (T & HT & Hrigid).
  destruct (inv_rigid T Hrigid) as (Ti & HTi & Hmul).
  exists T. split; [exact HT|]. split.
  - exists (length h), q, T.
    rewrite inverse_kinematics_unfold.
    rewrite (list_lookup_total_correct h g q Hg).
    assert (Hq : (h ++ [q]) !!! length h = q)
      by (apply list_lookup_total_middle; reflexivity).
    unfold max_iterations.
    destruct (error_at_own_pose T Ti Hrigid HTi Hmul) as (e & HE & He & Hn).
    rewrite (ik_loop_converged pinv _ T 99 (length h) (h ++ [q]) 0 T Ti (eye 4) e).
    + cbn [returned store]. split; [reflexivity|].
      split; [apply list_lookup_middle; reflexivity|].
      split; [exact HT|].
      intros i j. unfold Rminus. rewrite Rplus_opp_r, Rabs_R0. lra.
    + rewrite Hq. exact HT.
    + exact HTi.
    + exact HE.
    + exact He.
    + exact Hn.
  - intros self target_pose n ja h' done P Pi E e HP HPi HE He Hn.
    split; [reflexivity|].
    apply (ik_loop_converged pinv self target_pose n ja h' done P Pi E e
             HP HPi HE He Hn).
Qed.

Lemma inverse_kinematics_round_trip_witness :
  exists target,
    forward_kinematics (RobotKinematics_init [(1, 0, 0, 0)]) [0] = Return target
    /\ (exists l solution reached,
          returned (inverse_kinematics pinv_failing
                      (RobotKinematics_init [(1, 0, 0, 0)]) target
                      (Some 0%nat) [[0]]) = Return (Some l)
          /\ store (inverse_kinematics pinv_failing
                      (RobotKinematics_init [(1, 0, 0, 0)]) target
                      (Some 0%nat) [[0]]) !! l = Some solution
          /\ forward_kinematics (RobotKinematics_init [(1, 0, 0, 0)]) solution
             = Return reached
          /\ forall i j, Rabs (entry reached i j - entry target i j) <= 1e-4)
    /\ (forall (self : RobotKinematics) (target_pose : matrix) (n : nat)
               (joint_angles : loc) (h' : heap) (done : nat)
               (P Pi pose_error : matrix) (error_vector : vector),
          forward_kinematics self (h' !!! joint_angles) = Return P ->
          inv P = Return Pi ->
          matmul_checked Pi target_pose = Return pose_error ->
          error_vector_of pose_error = Return error_vector ->
          norm error_vector < tolerance ->
          tolerance = 1e-6
          /\ ik_loop pinv_failing self target_pose (S n) joint_angles h' done
             = {| returned := Return (Some joint_angles);
                  store := h';
                  passes := S done |}).
Proof.
  apply (inverse_kinematics_round_trip pinv_failing [(1, 0, 0, 0)] [0]
           [[0]] 0%nat); reflexivity.
Defined.

Lemma empty_chain_exhausts (ja : loc) (h : heap) :
  (ja < length h)%nat ->
  h !!! ja = [] ->
  ik_loop pinv_zero (RobotKinematics_init []) shifted_pose max_iterations ja h 0
  = {| returned := Return None; store := h; passes := 100 |}.
Proof.
  intros Hja Hq. unfold max_iterations.
  rewrite (ik_loop_exhausted pinv_zero (RobotKinematics_init []) shifted_pose
             (fun _ => []) 100 0 ja h 0 Hja Hq).
  - cbn [Nat.add]. f_equal. apply list_insert_id.
    rewrite <- Hq. apply list_lookup_lookup_total_lt, Hja.
  - intros j _. apply empty_chain_updates.
Qed.

(** C3 as stated fails: on the same chain, target and guess, a call whose
    first pass stops on the failure of [pinv] and a call that uses up all 100
    passes return the same value, [None]. *)
Lemma pinv_failure_and_exhaustion_return_the_same :
  ik_iteration pinv_failing (RobotKinematics_init []) shifted_pose []
  = Return PinvFailed
  /\ passes (inverse_kinematics pinv_failing (RobotKinematics_init [])
               shifted_pose None []) = 1%nat
  /\ passes (inverse_kinematics pinv_zero (RobotKinematics_init [])
               shifted_pose None []) = 100%nat
  /\ returned (inverse_kinematics pinv_failing (RobotKinematics_init [])
                 shifted_pose None [])
     = returned (inverse_kinematics pinv_zero (RobotKinematics_init [])
                   shifted_pose None []).
Proof.
  rewrite !inverse_kinematics_unfold.
  cbn [length num_joints RobotKinematics_init zeros replicate app].
  rewrite (empty_chain_exhausts 1 [[]; []]) by (cbn [length]; try lia; reflexivity).
  unfold max_iterations. cbn [ik_loop].
  change ([[]; []] !!! 1%nat) with (@nil R).
  rewrite empty_chain_pinv_fails. cbn [passes returned].
  repeat split; reflexivity.
Qed.

(** C3 (as amended).  When [pinv] fails on the Jacobian at an iterate that
    has not converged, the call ends in that pass, without another update,
    and returns [None]; a call that uses up its 100 passes returns [None] as
    well, so the returned value does not tell the two apart. *)
Theorem pinv_failure_aborts_with_None
    (pinv : matrix -> option matrix) (self : RobotKinematics)
    (target_pose : matrix) (n : nat) (joint_angles : loc) (h : heap)
    (done : nat) (P Pi pose_error : matrix) (error_vector : vector) (J : matrix) :
  forward_kinematics self (h !!! joint_angles) = Return P ->
  inv P = Return Pi ->
  matmul_checked Pi target_pose = Return pose_error ->
  error_vector_of pose_error = Return error_vector ->
  ~ norm error_vector < tolerance ->
  compute_jacobian self (h !!! joint_angles) = Return J ->
  pinv J = None ->
  ik_loop pinv self target_pose (S n) joint_angles h done
  = {| returned := Return None; store := h; passes := S done |}
  /\ (forall (qs : nat -> vector) (ja : loc) (h' : heap),
        (ja < length h')%nat ->
        h' !!! ja = qs 0%nat ->
        (forall k, (k < max_iterations)%nat ->
           ik_iteration pinv self target_pose (qs k) = Return (Updated (qs (S k)))) ->
        returned (ik_loop pinv self target_pose max_iterations ja h' 0)
        = Return None).
Proof.
  intros HP HPi HE He Hn HJ Hpinv. split.
  - cbn [ik_loop].
    rewrite (ik_iteration_pinv_failed pinv self target_pose _ P Pi
               pose_error error_vector J HP HPi HE He Hn HJ Hpinv).
    reflexivity.
  - intros qs ja h' Hja Hq Hstep.
    rewrite (ik_loop_exhausted pinv self target_pose qs max_iterations 0 ja h' 0
               Hja Hq).
    + reflexivity.
    + intros j Hj. cbn [Nat.add]. apply Hstep, Hj.
Qed.

Lemma pinv_failure_aborts_with_None_witness :
  ik_loop pinv_failing (RobotKinematics_init []) shifted_pose 100 0 [[]] 0
  = {| returned := Return None; store := [[]]; passes := 1 |}
  /\ (forall (qs : nat -> vector) (ja : loc) (h' : heap),
        (ja < length h')%nat ->
        h' !!! ja = qs 0%nat ->
        (forall k, (k < max_iterations)%nat ->
           ik_iteration pinv_failing (RobotKinematics_init []) shifted_pose (qs k)
           = Return (Updated (qs (S k)))) ->
        returned (ik_loop pinv_failing (RobotKinematics_init []) shifted_pose
                    max_iterations ja h' 0)
        = Return None).
Proof.
  destruct shifted_error as (E & e & HE & He & Hn).
  apply (pinv_failure_aborts_with_None pinv_failing (RobotKinematics_init [])
           shifted_pose 99 0%nat [[]] 0%nat (eye 4)
           (mdiv (adjugate (eye 4)) 1) E e (zeros2 6 0)).
  - reflexivity.
  - apply inv_eye4.
  - exact HE.
  - exact He.
  - rewrite Hn. unfold tolerance. lra.
  - apply empty_chain_jacobian.
  - reflexivity.
Defined.

(** *** The iterates *)







Section SolverTrace.

Variable pinv : matrix -> option matrix.
Variable self : RobotKinematics.
Variable target_pose : matrix.

Hypothesis pinv_shape :
  forall J P, length J = 6%nat -> pinv J = Some P ->
              length P = ncols J /\ Forall (fun row => length row = 6%nat) P.




End SolverTrace.




(** *** A pass on a one-joint chain *)

Lemma one_joint_pose :
  forward_kinematics (RobotKinematics_init [(1, 0, 0, 0)]) [0] = Return shifted_pose.
Proof.
  rewrite forward_kinematics_eval by reflexivity.
  f_equal. unfold link_transforms, standard_dh_matrix, shifted_pose.
  cbn [zip_with]. np_cbn. rewrite !Rplus_0_l, cos_0, sin_0.
  list_eq; ring.
Qed.

Lemma inv_shifted_pose :
  inv shifted_pose = Return (exact_inverse shifted_pose).
Proof.
  assert (HD : det shifted_pose = 1) by (unfold shifted_pose; np_cbn; ring).
  unfold inv. cbn [is_square shifted_pose forallb length Nat.eqb andb negb].
  destruct (Req_dec_T _ 0) as [Hz|_]; [|reflexivity].
  exfalso. change (det shifted_pose = 0) in Hz. lra.
Qed.

Lemma raised_pose_error :
  matmul (exact_inverse shifted_pose) raised_pose
  = [ [1; 0; 0; 0]; [0; 1; 0; 1]; [0; 0; 1; 0]; [0; 0; 0; 1] ].
Proof.
  unfold shifted_pose, raised_pose. np_cbn. unfold cofactor. np_cbn.
  list_eq; lra.
Qed.

Lemma epsilon_sin_pos : 0 < sin epsilon.
Proof.
  apply sin_gt_0; unfold epsilon; [lra|].
  pose proof PI_RGT_0. pose proof PI2_1. unfold PI2 in *. lra.
Qed.

Lemma one_joint_jacobian :
  compute_jacobian (RobotKinematics_init [(1, 0, 0, 0)]) [0]
  = Return (map (fun k => [written [(1, 0, 0, 0)] [0] 0 k]) (seq 0 6)).
Proof.
  unfold compute_jacobian, compute_jacobian_logged.
  cbn [RobotKinematics_init num_joints length].
  rewrite (jacobian_loop_eval [(1, 0, 0, 0)] [0] eq_refl 1 0) by (cbn [length]; lia).
  reflexivity.
Qed.

Lemma one_joint_written_1 :
  written [(1, 0, 0, 0)] [0] 0 1 = sin epsilon / epsilon.
Proof.
  unfold written, diff_at, pose_at, angles_plus, angles_minus, chain_product,
    link_transforms, standard_dh_matrix.
  cbn [nth list_insert insert zip_with]. np_cbn.
  replace (0 + epsilon + 0) with epsilon by ring.
  replace (0 - epsilon + 0) with (- epsilon) by ring.
  rewrite sin_neg. unfold Rdiv. rewrite Rinv_mult.
  generalize (/ epsilon). intros i. field.
Qed.

(** On a one-joint chain, with the transpose standing in for the
    pseudo-inverse, a pass towards [raised_pose] from the angle 0 goes on
    with an angle that has moved. *)
Lemma one_joint_first_pass :
  ik_iteration pinv_transpose (RobotKinematics_init [(1, 0, 0, 0)]) raised_pose [0]
  = Return (Updated [0 + 0.1 * (sin epsilon / epsilon)])
  /\ 0 + 0.1 * (sin epsilon / epsilon) <> 0.
Proof.
  split.
  - unfold ik_iteration. rewrite one_joint_pose. cbn [bind].
    rewrite inv_shifted_pose. cbn [bind].
    change (matmul_checked (exact_inverse shifted_pose) raised_pose)
      with (Return (matmul (exact_inverse shifted_pose) raised_pose)).
    cbn [bind]. rewrite raised_pose_error.
    change (error_vector_of [[1; 0; 0; 0]; [0; 1; 0; 1]; [0; 0; 1; 0]; [0; 0; 0; 1]])
      with (Return [0; 1; 0; 0.5 * (0 - 0); 0.5 * (0 - 0); 0.5 * (0 - 0)]).
    cbn [bind].
    destruct (Rlt_dec _ tolerance) as [Hlt|_].
    { exfalso. revert Hlt. unfold norm, tolerance. cbn [map fold_right].
      match goal with |- sqrt ?x < _ -> _ => replace x with 1 by lra end.
      rewrite sqrt_1. lra. }
    rewrite one_joint_jacobian. cbn [bind].
    unfold pinv_transpose, matvec_checked, iadd, learning_rate.
    cbn [transpose ncols col map seq hd length forallb Nat.eqb andb bind nth
         matvec vscale vadd zip_with dot fold_right].
    rewrite one_joint_written_1.
    do 2 f_equal. f_equal. generalize (sin epsilon / epsilon).
    generalize (written [(1, 0, 0, 0)] [0] 0). intros w s. lra.
  - pose proof epsilon_sin_pos as Hs.
    assert (He : 0 < / epsilon) by (apply Rinv_0_lt_compat; unfold epsilon; lra).
    assert (0 < sin epsilon / epsilon) by (apply Rmult_lt_0_compat; assumption).
    lra.
Qed.

(** ** Further properties of forward kinematics *)

Ltac open_homogeneous H :=
  let r00 := fresh "r00" in let r01 := fresh "r01" in let r02 := fresh "r02" in
  let tx := fresh "tx" in let r10 := fresh "r10" in let r11 := fresh "r11" in
  let r12 := fresh "r12" in let ty := fresh "ty" in let r20 := fresh "r20" in
  let r21 := fresh "r21" in let r22 := fresh "r22" in let tz := fresh "tz" in
  destruct H as (r00 & r01 & r02 & tx & r10 & r11 & r12 & ty
                 & r20 & r21 & r22 & tz & ->).

Lemma matmul_assoc_homogeneous (A B C : matrix) :
  homogeneous A -> homogeneous B -> homogeneous C ->
  matmul (matmul A B) C = matmul A (matmul B C).
Proof.
  intros HA HB HC. open_homogeneous HA. open_homogeneous HB. open_homogeneous HC.
  np_cbn. list_eq; ring.
Qed.

Lemma matmul_eye_l (T : matrix) : homogeneous T -> matmul (eye 4) T = T.
Proof. intros HT. open_homogeneous HT. np_cbn. list_eq; ring. Qed.

Lemma matmul_eye_r (T : matrix) : homogeneous T -> matmul T (eye 4) = T.
Proof. intros HT. open_homogeneous HT. np_cbn. list_eq; ring. Qed.

Lemma chain_from (Ts : list matrix) (T : matrix) :
  Forall rigid Ts -> rigid T ->
  fold_left matmul Ts T = matmul T (fold_left matmul Ts (eye 4)).
Proof.
  intros HTs. revert T.
  induction HTs as [|L Ts HL HTs IH]; intros T HT; cbn [fold_left].
  - symmetry. apply matmul_eye_r, HT.
  - rewrite IH by (apply rigid_matmul; assumption).
    rewrite (IH (matmul (eye 4) L)) by (apply rigid_matmul; [apply eye4_rigid|assumption]).
    rewrite (matmul_eye_l L) by apply HL.
    apply matmul_assoc_homogeneous; [apply HT | apply HL |].
    apply chain_rigid; [assumption | apply eye4_rigid].
Qed.

Lemma link_transforms_app (dh1 dh2 : list DH) (q1 q2 : vector) :
  length q1 = length dh1 ->
  link_transforms (dh1 ++ dh2) (q1 ++ q2)
  = link_transforms dh1 q1 ++ link_transforms dh2 q2.
Proof.
  intros H. unfold link_transforms. apply zip_with_app. symmetry. exact H.
Qed.

(** X1.  [forward_kinematics] returns a pose exactly when the joint vector
    has one angle per joint, and the pose is then a 4x4 matrix with last row
    0 0 0 1; with any other length it raises [ValueError], and it raises
    nothing else. *)
Theorem forward_kinematics_defined_iff_length (dh : list DH) (q : vector) :
  (length q = length dh
   /\ exists T, forward_kinematics (RobotKinematics_init dh) q = Return T
                /\ homogeneous T)
  \/ (length q <> length dh
      /\ forward_kinematics (RobotKinematics_init dh) q = Raise ValueError).
Proof.
  destruct (decide (length q = length dh)) as [Heq|Hne].
  - left. split; [exact Heq|].
    destruct (forward_kinematics_rigid dh q Heq) as (T & HT & Hh & _).
    exists T. split; assumption.
  - right. split; [exact Hne|].
    unfold forward_kinematics, RobotKinematics_init. cbn [num_joints].
    destruct (Nat.eqb_spec (length q) (length dh)); [contradiction|reflexivity].
Qed.

(** X2.  Forward kinematics of two chains put end to end is the product of
    the two poses: for joint vectors of matching lengths, the pose of
    [dh1 ++ dh2] at [q1 ++ q2] is pose(dh1, q1) @ pose(dh2, q2). *)
Theorem forward_kinematics_app (dh1 dh2 : list DH) (q1 q2 : vector) :
  length q1 = length dh1 ->
  length q2 = length dh2 ->
  exists T1 T2,
    forward_kinematics (RobotKinematics_init dh1) q1 = Return T1
    /\ forward_kinematics (RobotKinematics_init dh2) q2 = Return T2
    /\ forward_kinematics (RobotKinematics_init (dh1 ++ dh2)) (q1 ++ q2)
       = Return (matmul T1 T2).
Proof.
  intros H1 H2.
  exists (fold_left matmul (link_transforms dh1 q1) (eye 4)),
         (fold_left matmul (link_transforms dh2 q2) (eye 4)).
  split; [apply forward_kinematics_eval, H1|].
  split; [apply forward_kinematics_eval, H2|].
  rewrite forward_kinematics_eval by (rewrite !length_app; congruence).
  rewrite link_transforms_app by exact H1.
  rewrite fold_left_app. f_equal.
  apply chain_from; [apply link_transforms_rigid|].
  apply chain_rigid; [apply link_transforms_rigid | apply eye4_rigid].
Qed.

Lemma forward_kinematics_app_witness :
  exists T1 T2,
    forward_kinematics (RobotKinematics_init [(1, 0, 0, 0)]) [0] = Return T1
    /\ forward_kinematics (RobotKinematics_init [(0, 0, 2, 0)]) [1] = Return T2
    /\ forward_kinematics (RobotKinematics_init ([(1, 0, 0, 0)] ++ [(0, 0, 2, 0)]))
         ([0] ++ [1])
       = Return (matmul T1 T2).
Proof.
  apply (forward_kinematics_app [(1, 0, 0, 0)] [(0, 0, 2, 0)] [0] [1]);
    reflexivity.
Defined.

Lemma dh_transform_identity (theta : R) :
  theta = 0 -> dh_transform 0 0 0 theta = eye 4.
Proof.
  intros ->. unfold dh_transform. rewrite cos_0, sin_0.
  np_cbn. list_eq; ring.
Qed.

(** X3.  A chain whose links all have a = alpha = d = 0, taken at joint
    angles that cancel the offsets (the zero vector when the offsets are
    zero), gives the identity pose. *)
Theorem forward_kinematics_identity_chain (dh : list DH) (q : vector) :
  Forall2 (fun (p : DH) (x : R) =>
             let '(a, alpha, d, theta_offset) := p in
             a = 0 /\ alpha = 0 /\ d = 0 /\ x + theta_offset = 0) dh q ->
  forward_kinematics (RobotKinematics_init dh) q = Return (eye 4).
Proof.
  intros H.
  rewrite forward_kinematics_eval by (symmetry; apply (Forall2_length _ _ _ H)).
  f_equal.
  induction H as [|[[[a alpha] d] off] x dh q (-> & -> & -> & Hx) _ IH].
  - reflexivity.
  - cbn [link_transforms zip_with fold_left].
    change (standard_dh_matrix 0 0 0 (x + off)) with (dh_transform 0 0 0 (x + off)).
    rewrite (dh_transform_identity _ Hx).
    rewrite (matmul_eye_l (eye 4)) by apply eye4_rigid.
    exact IH.
Qed.

Lemma forward_kinematics_identity_chain_witness :
  forward_kinematics
    (RobotKinematics_init [(0, 0, 0, 0); (0, 0, 0, 1)]) [0; -1]
  = Return (eye 4).
Proof.
  apply (forward_kinematics_identity_chain [(0, 0, 0, 0); (0, 0, 0, 1)] [0; -1]).
  repeat constructor; lra.
Defined.

Lemma dh_transform_period (a alpha d theta : R) (k : nat) :
  dh_transform a alpha d (theta + 2 * INR k * PI) = dh_transform a alpha d theta.
Proof.
  unfold dh_transform. rewrite cos_period, sin_period. reflexivity.
Qed.

(** X4.  Forward kinematics has period 2·PI in every joint angle: adding a
    whole number of turns to each angle leaves the pose unchanged. *)
Theorem forward_kinematics_period (dh : list DH) (q : vector) (turns : list nat) :
  length turns = length q ->
  forward_kinematics (RobotKinematics_init dh)
    (zip_with (fun x k => x + 2 * INR k * PI) q turns)
  = forward_kinematics (RobotKinematics_init dh) q.
Proof.
  intros Ht.
  destruct (decide (length q = length dh)) as [Heq|Hne].
  - rewrite !forward_kinematics_eval
      by (rewrite ?length_zip_with; lia).
    f_equal. f_equal.
    clear Heq. revert q turns Ht.
    induction dh as [|[[[a alpha] d] off] dh IH]; intros q turns Ht.
    + reflexivity.
    + destruct q as [|x q]; destruct turns as [|k turns]; try discriminate.
      * reflexivity.
      * cbn [zip_with link_transforms]. f_equal.
        -- change (standard_dh_matrix a alpha d (x + 2 * INR k * PI + off)
                   = standard_dh_matrix a alpha d (x + off)).
           replace (x + 2 * INR k * PI + off) with (x + off + 2 * INR k * PI) by ring.
           apply dh_transform_period.
        -- apply IH. cbn [length] in Ht. lia.
  - unfold forward_kinematics, RobotKinematics_init. cbn [num_joints].
    rewrite length_zip_with.
    replace (Nat.min (length q) (length turns)) with (length q) by lia.
    destruct (Nat.eqb_spec (length q) (length dh)); [contradiction|reflexivity].
Qed.

Lemma forward_kinematics_period_witness :
  forward_kinematics (RobotKinematics_init [(1, 0, 0, 0)])
    (zip_with (fun x k => x + 2 * INR k * PI) [0] [3%nat])
  = forward_kinematics (RobotKinematics_init [(1, 0, 0, 0)]) [0].
Proof.
  apply (forward_kinematics_period [(1, 0, 0, 0)] [0] [3%nat]). reflexivity.
Defined.

(** ** Further properties of the Jacobian *)

(** X5.  For a joint vector of the chain's length the Jacobian has six rows
    of N entries each. *)
Theorem compute_jacobian_shape (dh : list DH) (q : vector) :
  length q = length dh ->
  exists J,
    compute_jacobian (RobotKinematics_init dh) q = Return J
    /\ length J = 6%nat
    /\ Forall (fun row => length row = length dh) J.
Proof.
  intros Hlen.
  exists (fold_left (write_column dh q) (seq 0 (length q)) (zeros2 6 (length q))).
  split.
  - unfold compute_jacobian, compute_jacobian_logged.
    cbn [RobotKinematics_init num_joints]. rewrite <- Hlen.
    rewrite (jacobian_loop_eval dh q Hlen) by lia. reflexivity.
  - unfold zeros2. cbn [replicate].
    rewrite (write_columns_rows dh q Hlen). cbn [map fst snd length].
    split; [reflexivity|].
    repeat constructor; rewrite fold_insert_length; unfold zeros;
      rewrite length_replicate; exact Hlen.
Qed.

Lemma compute_jacobian_shape_witness :
  exists J,
    compute_jacobian (RobotKinematics_init [(1, 0, 0, 0)]) [0] = Return J
    /\ length J = 6%nat
    /\ Forall (fun row => length row = length [(1, 0, 0, 0)]) J.
Proof.
  apply (compute_jacobian_shape [(1, 0, 0, 0)] [0]). reflexivity.
Defined.

(** X6.  With a joint vector of another length: a chain without joints gives
    the empty 6x0 Jacobian without evaluating forward kinematics; otherwise
    the first pass fails, with [IndexError] on an empty vector (before any
    evaluation) and with [ValueError] from the first forward-kinematics
    evaluation on a non-empty one. *)
Theorem compute_jacobian_length_mismatch (dh : list DH) (q : vector) :
  length q <> length dh ->
  compute_jacobian_logged (RobotKinematics_init dh) q
  = match dh, q with
    | [], _ => (Return [[]; []; []; []; []; []], [])
    | _ :: _, [] => (Raise IndexError, [])
    | _ :: _, x :: _ => (Raise ValueError, [<[0%nat := x + epsilon]> q])
    end.
Proof.
  intros Hne. destruct dh as [|p dh]; [reflexivity|].
  unfold compute_jacobian_logged. cbn [RobotKinematics_init num_joints length seq lfoldM].
  destruct q as [|x q]; [reflexivity|].
  unfold jacobian_step at 1, copy_update, lift, call_forward_kinematics.
  cbn [lookup list_lookup lbind insert list_insert].
  unfold forward_kinematics. cbn [RobotKinematics_init num_joints length].
  cbn [length] in Hne.
  destruct (Nat.eqb_spec (S (length q)) (S (length dh))) as [Heq|_];
    [contradiction|].
  reflexivity.
Qed.

Lemma compute_jacobian_length_mismatch_witness :
  compute_jacobian_logged (RobotKinematics_init [(1, 0, 0, 0)]) [0; 0]
  = (Raise ValueError, [<[0%nat := 0 + epsilon]> [0; 0]]).
Proof.
  apply (compute_jacobian_length_mismatch [(1, 0, 0, 0)] [0; 0]).
  cbn [length]. lia.
Defined.

(** ** Further properties of the solver *)

Section SolverOutcomes.

Variable pinv : matrix -> option matrix.
Variable self : RobotKinematics.
Variable target_pose : matrix.

Lemma ik_iteration_converged_inv (q : vector) :
  ik_iteration pinv self target_pose q = Return Converged ->
  exists P Pi E e,
    forward_kinematics self q = Return P
    /\ inv P = Return Pi
    /\ matmul_checked Pi target_pose = Return E
    /\ error_vector_of E = Return e
    /\ norm e < tolerance.
Proof.
  unfold ik_iteration.
  destruct (forward_kinematics self q) as [P|x] eqn:HP; cbn [bind]; [|discriminate].
  destruct (inv P) as [Pi|x] eqn:HPi; cbn [bind]; [|discriminate].
  destruct (matmul_checked Pi target_pose) as [E|x] eqn:HE; cbn [bind];
    [|discriminate].
  destruct (error_vector_of E) as [e|x] eqn:He; cbn [bind]; [|discriminate].
  destruct (Rlt_dec _ tolerance) as [Hn|Hn].
  - intros _. exists P, Pi, E, e. repeat split; assumption.
  - destruct (compute_jacobian self q) as [J|x]; cbn [bind]; [|discriminate].
    destruct (pinv J) as [Pinv|]; [|discriminate].
    destruct (matvec_checked Pinv _) as [dq|x]; cbn [bind]; [|discriminate].
    destruct (iadd q _) as [q1|x]; cbn [bind]; discriminate.
Qed.

Lemma ik_loop_sound (n : nat) (ja : loc) (h : heap) (done : nat) (l : loc) :
  (ja < length h)%nat ->
  returned (ik_loop pinv self target_pose n ja h done) = Return (Some l) ->
  l = ja
  /\ ik_iteration pinv self target_pose
       (store (ik_loop pinv self target_pose n ja h done) !!! ja)
     = Return Converged.
Proof.
  revert h done. induction n as [|n IH]; intros h done Hja; cbn [ik_loop].
  - discriminate.
  - destruct (ik_iteration pinv self target_pose (h !!! ja))
      as [[| |q']|e] eqn:Hit; cbn [returned store]; try discriminate.
    + intros [= <-]. split; [reflexivity | exact Hit].
    + apply IH. rewrite length_insert. exact Hja.
Qed.

Lemma ik_loop_store_length (n : nat) (ja : loc) (h : heap) (done : nat) :
  length (store (ik_loop pinv self target_pose n ja h done)) = length h.
Proof.
  revert h done. induction n as [|n IH]; intros h done; cbn [ik_loop].
  - reflexivity.
  - destruct (ik_iteration pinv self target_pose (h !!! ja))
      as [[| |q']|e]; cbn [store]; try reflexivity.
    rewrite IH. apply length_insert.
Qed.

(** Two runs of the loop that start from equal values, in whatever stores,
    agree on everything but the place of the array. *)
Lemma ik_loop_same_value (n : nat) (ja1 ja2 : loc) (h1 h2 : heap) (done : nat) :
  (ja1 < length h1)%nat -> (ja2 < length h2)%nat ->
  h1 !!! ja1 = h2 !!! ja2 ->
  passes (ik_loop pinv self target_pose n ja1 h1 done)
  = passes (ik_loop pinv self target_pose n ja2 h2 done)
  /\ store (ik_loop pinv self target_pose n ja1 h1 done) !!! ja1
     = store (ik_loop pinv self target_pose n ja2 h2 done) !!! ja2
  /\ match returned (ik_loop pinv self target_pose n ja1 h1 done),
           returned (ik_loop pinv self target_pose n ja2 h2 done) with
     | Return (Some l1), Return (Some l2) => l1 = ja1 /\ l2 = ja2
     | Return None, Return None => True
     | Raise e1, Raise e2 => e1 = e2
     | _, _ => False
     end.
Proof.
  revert h1 h2 done. induction n as [|n IH]; intros h1 h2 done H1 H2 Hv;
    cbn [ik_loop].
  - cbn [passes store returned]. auto.
  - rewrite <- Hv.
    destruct (ik_iteration pinv self target_pose (h1 !!! ja1))
      as [[| |q']|e]; cbn [passes store returned]; auto.
    apply IH; rewrite ?length_insert; try assumption.
    rewrite !list_lookup_total_insert_eq by assumption. reflexivity.
Qed.

End SolverOutcomes.

(** X7.  A solution that [inverse_kinematics] returns meets the tolerance:
    the returned array holds a joint vector at which the pose error, formed
    as in the loop (the shape and index checks passed), has norm below
    1e-6. *)
Theorem inverse_kinematics_solution_within_tolerance
    (pinv : matrix -> option matrix) (self : RobotKinematics)
    (target_pose : matrix) (initial_guess : option loc) (h : heap) (l : loc) :
  returned (inverse_kinematics pinv self target_pose initial_guess h)
  = Return (Some l) ->
  exists (solution : vector) (P Pi pose_error : matrix) (error_vector : vector),
    store (inverse_kinematics pinv self target_pose initial_guess h) !! l
    = Some solution
    /\ forward_kinematics self solution = Return P
    /\ inv P = Return Pi
    /\ matmul_checked Pi target_pose = Return pose_error
    /\ error_vector_of pose_error = Return error_vector
    /\ norm error_vector < 1e-6.
Proof.
  rewrite inverse_kinematics_unfold.
  destruct initial_guess as [g|]; intros Hret;
    apply ik_loop_sound in Hret as [-> Hit];
    try (rewrite !length_app; cbn [length]; lia);
    apply ik_iteration_converged_inv in Hit as (P & Pi & E & e & HP & HPi & HE & He & Hn);
    eexists; exists P, Pi, E, e;
    (split; [|split; [exact HP|split; [exact HPi|split;
                                         [exact HE|split; [exact He|exact Hn]]]]]);
    apply list_lookup_lookup_total_lt; rewrite ik_loop_store_length;
    rewrite !length_app; cbn [length]; lia.
Qed.

Lemma inverse_kinematics_returns_at_solution
    (pinv : matrix -> option matrix) (dh : list DH) (q : vector)
    (h : heap) (g : loc) (T : matrix) :
  length q = length dh ->
  h !! g = Some q ->
  forward_kinematics (RobotKinematics_init dh) q = Return T ->
  inverse_kinematics pinv (RobotKinematics_init dh) T (Some g) h
  = {| returned := Return (Some (length h)); store := h ++ [q]; passes := 1 |}.
Proof.
  intros Hlen Hg HT.
  destruct (forward_kinematics_rigid dh q Hlen) as (T' & HT' & Hrigid).
  rewrite HT in HT'. injection HT' as <-.
  destruct (inv_rigid T Hrigid) as (Ti & HTi & Hmul).
  destruct (error_at_own_pose T Ti Hrigid HTi Hmul) as (e & HE & He & Hn).
  rewrite inverse_kinematics_unfold.
  rewrite (list_lookup_total_correct h g q Hg).
  unfold max_iterations.
  apply (ik_loop_converged pinv _ T 99 (length h) (h ++ [q]) 0 T Ti (eye 4) e).
  - rewrite (list_lookup_total_middle h [] q) by reflexivity. exact HT.
  - exact HTi.
  - exact HE.
  - exact He.
  - exact Hn.
Qed.

Lemma inverse_kinematics_solution_within_tolerance_witness :
  exists (solution : vector) (P Pi pose_error : matrix) (error_vector : vector),
    store (inverse_kinematics pinv_failing (RobotKinematics_init [])
             (eye 4) (Some 0%nat) [[]]) !! 1%nat
    = Some solution
    /\ forward_kinematics (RobotKinematics_init []) solution = Return P
    /\ inv P = Return Pi
    /\ matmul_checked Pi (eye 4) = Return pose_error
    /\ error_vector_of pose_error = Return error_vector
    /\ norm error_vector < 1e-6.
Proof.
  apply (inverse_kinematics_solution_within_tolerance pinv_failing
           (RobotKinematics_init []) (eye 4) (Some 0%nat) [[]] 1%nat).
  rewrite (inverse_kinematics_returns_at_solution pinv_failing [] [] [[]] 0%nat
             (eye 4)); reflexivity.
Defined.

Lemma ik_wrong_guess_length
    (pinv : matrix -> option matrix) (self : RobotKinematics)
    (target_pose : matrix) (h : heap) (g : loc) (q : vector) :
  h !! g = Some q ->
  length q <> num_joints self ->
  inverse_kinematics pinv self target_pose (Some g) h
  = {| returned := Raise ValueError; store := h ++ [q]; passes := 1 |}.
Proof.
  intros Hg Hne. rewrite inverse_kinematics_unfold.
  rewrite (list_lookup_total_correct h g q Hg).
  unfold max_iterations. cbn [ik_loop].
  rewrite (list_lookup_total_middle h [] q) by reflexivity.
  unfold ik_iteration, forward_kinematics.
  destruct (Nat.eqb_spec (length q) (num_joints self)); [contradiction|].
  reflexivity.
Qed.

(** X8.  A guess that does not have one angle per joint makes the call
    raise [ValueError] in its first pass; it does not return [None], and the
    caller's array is left as it was. *)
Theorem inverse_kinematics_wrong_guess_length
    (pinv : matrix -> option matrix) (self : RobotKinematics)
    (target_pose : matrix) (h : heap) (g : loc) (q : vector) :
  h !! g = Some q ->
  length q <> num_joints self ->
  inverse_kinematics pinv self target_pose (Some g) h
  = {| returned := Raise ValueError; store := h ++ [q]; passes := 1 |}.
Proof. apply ik_wrong_guess_length. Qed.

Lemma inverse_kinematics_wrong_guess_length_witness :
  inverse_kinematics pinv_failing (RobotKinematics_init [(1, 0, 0, 0)])
    shifted_pose (Some 0%nat) [[0; 0]]
  = {| returned := Raise ValueError; store := [[0; 0]] ++ [[0; 0]]; passes := 1 |}.
Proof.
  apply (inverse_kinematics_wrong_guess_length pinv_failing
           (RobotKinematics_init [(1, 0, 0, 0)]) shifted_pose [[0; 0]] 0%nat
           [0; 0]).
  - reflexivity.
  - cbn [length RobotKinematics_init num_joints]. lia.
Defined.

(** X9.  Leaving out the guess is the same as passing an array of
    [num_joints] zeros: the two calls make the same number of passes, end the
    same way (solution, [None], or the same exception), and a returned
    solution holds the same joint vector. *)
Theorem inverse_kinematics_default_guess
    (pinv : matrix -> option matrix) (self : RobotKinematics)
    (target_pose : matrix) (h : heap) (g : loc) :
  h !! g = Some (zeros (num_joints self)) ->
  passes (inverse_kinematics pinv self target_pose None h)
  = passes (inverse_kinematics pinv self target_pose (Some g) h)
  /\ match returned (inverse_kinematics pinv self target_pose None h),
           returned (inverse_kinematics pinv self target_pose (Some g) h) with
     | Return (Some l1), Return (Some l2) =>
         exists solution,
           store (inverse_kinematics pinv self target_pose None h) !! l1
           = Some solution
           /\ store (inverse_kinematics pinv self target_pose (Some g) h) !! l2
              = Some solution
     | Return None, Return None => True
     | Raise e1, Raise e2 => e1 = e2
     | _, _ => False
     end.
Proof.
  intros Hg. rewrite !inverse_kinematics_unfold.
  rewrite (list_lookup_total_correct h g _ Hg).
  set (z := zeros (num_joints self)).
  assert (H1 : (S (length h) < length ((h ++ [z]) ++ [z]))%nat)
    by (rewrite !length_app; cbn [length]; lia).
  assert (H2 : (length h < length (h ++ [z]))%nat)
    by (rewrite !length_app; cbn [length]; lia).
  assert (Hv : ((h ++ [z]) ++ [z]) !!! S (length h) = (h ++ [z]) !!! length h).
  { rewrite (list_lookup_total_middle (h ++ [z]) [] z)
      by (rewrite length_app; cbn [length]; lia).
    rewrite (list_lookup_total_middle h [] z) by reflexivity. reflexivity. }
  destruct (ik_loop_same_value pinv self target_pose max_iterations
              (S (length h)) (length h) ((h ++ [z]) ++ [z]) (h ++ [z]) 0 H1 H2 Hv)
    as (Hp & Hs & Hr).
  split; [exact Hp|].
  destruct (returned (ik_loop _ _ _ _ (S (length h)) _ _)) as [[l1|]|e1];
    destruct (returned (ik_loop _ _ _ _ (length h) _ _)) as [[l2|]|e2];
    try exact Hr.
  destruct Hr as [-> ->].
  eexists. split.
  - apply list_lookup_lookup_total_lt. rewrite ik_loop_store_length. exact H1.
  - rewrite Hs. apply list_lookup_lookup_total_lt.
    rewrite ik_loop_store_length. exact H2.
Qed.

Lemma inverse_kinematics_default_guess_witness :
  passes (inverse_kinematics pinv_failing (RobotKinematics_init [(1, 0, 0, 0)])
            shifted_pose None [[0]])
  = passes (inverse_kinematics pinv_failing (RobotKinematics_init [(1, 0, 0, 0)])
              shifted_pose (Some 0%nat) [[0]])
  /\ match returned (inverse_kinematics pinv_failing
                       (RobotKinematics_init [(1, 0, 0, 0)]) shifted_pose None [[0]]),
           returned (inverse_kinematics pinv_failing
                       (RobotKinematics_init [(1, 0, 0, 0)]) shifted_pose
                       (Some 0%nat) [[0]]) with
     | Return (Some l1), Return (Some l2) =>
         exists solution,
           store (inverse_kinematics pinv_failing
                    (RobotKinematics_init [(1, 0, 0, 0)]) shifted_pose None [[0]])
             !! l1 = Some solution
           /\ store (inverse_kinematics pinv_failing
                       (RobotKinematics_init [(1, 0, 0, 0)]) shifted_pose
                       (Some 0%nat) [[0]]) !! l2
              = Some solution
     | Return None, Return None => True
     | Raise e1, Raise e2 => e1 = e2
     | _, _ => False
     end.
Proof.
  apply (inverse_kinematics_default_guess pinv_failing
           (RobotKinematics_init [(1, 0, 0, 0)]) shifted_pose [[0]] 0%nat).
  reflexivity.
Defined.

Lemma compute_jacobian_rows (dh : list DH) (q : vector) :
  length q = length dh ->
  exists J,
    compute_jacobian (RobotKinematics_init dh) q = Return J
    /\ length J = 6%nat /\ ncols J = length dh.
Proof.
  intros Hlen.
  exists (fold_left (write_column dh q) (seq 0 (length q)) (zeros2 6 (length q))).
  split.
  - unfold compute_jacobian, compute_jacobian_logged.
    cbn [RobotKinematics_init num_joints]. rewrite <- Hlen.
    rewrite (jacobian_loop_eval dh q Hlen) by lia. reflexivity.
  - unfold zeros2. cbn [replicate].
    rewrite (write_columns_rows dh q Hlen). cbn [map fst snd length ncols hd].
    split; [reflexivity|].
    rewrite fold_insert_length. unfold zeros. rewrite length_replicate. exact Hlen.
Qed.

Lemma inv_rows (P Pi : matrix) : inv P = Return Pi -> length Pi = length P.
Proof.
  unfold inv. destruct (negb _); [discriminate|].
  destruct (Req_dec_T _ _); [discriminate|].
  intros [= <-]. unfold exact_inverse, mdiv, adjugate.
  rewrite !length_map, length_seq. reflexivity.
Qed.

Section SolverExceptions.

Variable pinv : matrix -> option matrix.
Variable dh : list DH.
Variable target_pose : matrix.

Local Abbreviation robot := (RobotKinematics_init dh).

(** The pose error at an iterate of the right length: [ValueError] from [@]
    unless the target has four rows, [IndexError] from the reads unless it
    has four columns or more. *)
Lemma pose_error_cases (q : vector) :
  length q = length dh ->
  exists T Ti,
    forward_kinematics robot q = Return T
    /\ inv T = Return Ti
    /\ length Ti = 4%nat
    /\ matmul_checked Ti target_pose
       = (if (length target_pose =? 4)%nat then Return (matmul Ti target_pose)
          else Raise ValueError)
    /\ ((ncols target_pose < 4)%nat ->
        error_vector_of (matmul Ti target_pose) = Raise IndexError)
    /\ ((4 <= ncols target_pose)%nat ->
        exists e, error_vector_of (matmul Ti target_pose) = Return e
                  /\ length e = 6%nat).
Proof.
  intros Hlen.
  destruct (forward_kinematics_rigid dh q Hlen) as (T & HT & Hrigid).
  destruct (inv_rigid T Hrigid) as (Ti & HTi & _).
  assert (Hl : length T = 4%nat) by apply homogeneous_length, Hrigid.
  assert (Hli : length Ti = 4%nat) by (rewrite (inv_rows T Ti HTi); exact Hl).
  exists T, Ti. split; [exact HT|]. split; [exact HTi|]. split; [exact Hli|].
  split; [apply (matmul_checked_inv T Ti target_pose HTi Hl)|].
  assert (Hc : ncols (matmul Ti target_pose) = ncols target_pose).
  { apply matmul_ncols. intros ->. discriminate. }
  split.
  - intros Hn. apply error_vector_of_narrow. rewrite Hc. exact Hn.
  - intros Hn. eexists. split.
    + apply (error_vector_of_wide _ (ncols target_pose)).
      * unfold matmul. rewrite length_map. exact Hli.
      * apply matmul_rows.
      * exact Hn.
    + rewrite length_app. unfold translation, col, vscale, vee.
      rewrite !length_map, length_take. unfold matmul. rewrite length_map, Hli.
      reflexivity.
Qed.

Lemma ik_iteration_exceptions (q : vector) (e : exn) :
  ik_iteration pinv robot target_pose q = Raise e ->
  e = ValueError
  \/ (e = IndexError /\ nrows target_pose = 4%nat /\ (ncols target_pose < 4)%nat).
Proof.
  unfold ik_iteration.
  destruct (decide (length q = length dh)) as [Hlen|Hne].
  - destruct (pose_error_cases q Hlen)
      as (T & Ti & HT & HTi & _ & HE & Hnarrow & Hwide).
    rewrite HT. cbn [bind]. rewrite HTi. cbn [bind]. rewrite HE.
    destruct (Nat.eqb_spec (length target_pose) 4) as [Hrows|_]; cbn [bind];
      [|intros [= <-]; left; reflexivity].
    destruct (Nat.lt_ge_cases (ncols target_pose) 4) as [Hc|Hc].
    + rewrite (Hnarrow Hc). cbn [bind]. intros [= <-]. right. auto.
    + destruct (Hwide Hc) as (ev & -> & _). cbn [bind].
      destruct (Rlt_dec _ tolerance); [discriminate|].
      destruct (compute_jacobian_rows dh q Hlen) as (J & -> & _). cbn [bind].
      destruct (pinv J) as [P|]; [|discriminate].
      unfold matvec_checked.
      destruct (forallb _ P); cbn [bind]; [|intros [= <-]; left; reflexivity].
      unfold iadd. destruct (_ =? _)%nat; [discriminate|].
      destruct (_ =? _)%nat; cbn [bind]; [discriminate|].
      intros [= <-]. left. reflexivity.
  - unfold forward_kinematics. cbn [RobotKinematics_init num_joints].
    destruct (Nat.eqb_spec (length q) (length dh)); [contradiction|].
    cbn [negb bind]. intros [= <-]. left. reflexivity.
Qed.

Lemma ik_loop_exceptions (n : nat) (ja : loc) (h : heap) (done : nat)
    (e : exn) :
  returned (ik_loop pinv robot target_pose n ja h done) = Raise e ->
  e = ValueError
  \/ (e = IndexError /\ nrows target_pose = 4%nat /\ (ncols target_pose < 4)%nat).
Proof.
  revert h done. induction n as [|n IH]; intros h done; cbn [ik_loop].
  - discriminate.
  - destruct (ik_iteration pinv robot target_pose (h !!! ja))
      as [[| |q']|e'] eqn:Hit; cbn [returned]; try discriminate.
    + apply IH.
    + intros [= <-]. apply (ik_iteration_exceptions _ _ Hit).
Qed.

(** A target of the wrong shape stops the first pass. *)
Lemma ik_iteration_target_rows (q : vector) :
  length q = length dh ->
  nrows target_pose <> 4%nat ->
  ik_iteration pinv robot target_pose q = Raise ValueError.
Proof.
  intros Hlen Hrows. unfold ik_iteration.
  destruct (pose_error_cases q Hlen) as (T & Ti & HT & HTi & _ & HE & _).
  rewrite HT. cbn [bind]. rewrite HTi. cbn [bind]. rewrite HE.
  destruct (Nat.eqb_spec (length target_pose) 4); [contradiction | reflexivity].
Qed.

Lemma ik_iteration_target_cols (q : vector) :
  length q = length dh ->
  nrows target_pose = 4%nat ->
  (ncols target_pose < 4)%nat ->
  ik_iteration pinv robot target_pose q = Raise IndexError.
Proof.
  intros Hlen Hrows Hcols. unfold ik_iteration.
  destruct (pose_error_cases q Hlen) as (T & Ti & HT & HTi & _ & HE & Hnarrow & _).
  rewrite HT. cbn [bind]. rewrite HTi. cbn [bind]. rewrite HE.
  unfold nrows in Hrows. rewrite Hrows. cbn [Nat.eqb bind].
  rewrite (Hnarrow Hcols). reflexivity.
Qed.

Hypothesis pinv_shape :
  forall J P, length J = 6%nat -> pinv J = Some P ->
              length P = ncols J /\ Forall (fun row => length row = 6%nat) P.

Hypothesis target_rows : nrows target_pose = 4%nat.
Hypothesis target_cols : (4 <= ncols target_pose)%nat.

Lemma ik_iteration_total (q : vector) :
  length q = length dh ->
  exists it,
    ik_iteration pinv robot target_pose q = Return it
    /\ forall q', it = Updated q' -> length q' = length dh.
Proof.
  intros Hlen. unfold ik_iteration.
  destruct (pose_error_cases q Hlen) as (T & Ti & HT & HTi & _ & HE & _ & Hwide).
  rewrite HT. cbn [bind]. rewrite HTi. cbn [bind]. rewrite HE.
  unfold nrows in target_rows. rewrite target_rows.
  cbn [Nat.eqb bind].
  destruct (Hwide target_cols) as (ev & -> & He). cbn [bind].
  destruct (Rlt_dec _ tolerance); [eexists; split; [reflexivity|discriminate]|].
  destruct (compute_jacobian_rows dh q Hlen) as (J & -> & HJ6 & HJc). cbn [bind].
  destruct (pinv J) as [P|] eqn:HP;
    [|eexists; split; [reflexivity|discriminate]].
  destruct (pinv_shape J P HJ6 HP) as [HPr HPc].
  unfold matvec_checked.
  assert (Hall : forallb (fun row => (length row =? length ev)%nat) P = true).
  { rewrite He. apply forallb_forall. intros row Hin.
    rewrite Forall_forall in HPc. apply Nat.eqb_eq, HPc.
    apply list_elem_of_In, Hin. }
  rewrite Hall. cbn [bind]. unfold iadd.
  unfold vscale, matvec. rewrite !length_map.
  rewrite HPr, HJc, Hlen, Nat.eqb_refl. cbn [bind].
  eexists. split; [reflexivity|].
  intros q' [= <-]. unfold vadd. rewrite length_zip_with, !length_map.
  rewrite HPr, HJc, Hlen. lia.
Qed.

Lemma ik_loop_total (n : nat) (ja : loc) (h : heap) (done : nat) :
  (ja < length h)%nat ->
  length (h !!! ja) = length dh ->
  exists v, returned (ik_loop pinv robot target_pose n ja h done) = Return v.
Proof.
  revert h done. induction n as [|n IH]; intros h done Hja Hlen; cbn [ik_loop].
  - eexists. reflexivity.
  - destruct (ik_iteration_total _ Hlen) as (it & -> & Hit).
    destruct it as [| |q']; cbn [returned]; try (eexists; reflexivity).
    apply IH.
    + rewrite length_insert. exact Hja.
    + rewrite list_lookup_total_insert_eq by exact Hja. apply Hit. reflexivity.
Qed.

End SolverExceptions.

Lemma ik_first_pass_raises
    (pinv : matrix -> option matrix) (self : RobotKinematics)
    (target_pose : matrix) (h : heap) (g : loc) (q : vector) (e : exn) :
  h !! g = Some q ->
  ik_iteration pinv self target_pose q = Raise e ->
  inverse_kinematics pinv self target_pose (Some g) h
  = {| returned := Raise e; store := h ++ [q]; passes := 1 |}.
Proof.
  intros Hg Hit. rewrite inverse_kinematics_unfold.
  rewrite (list_lookup_total_correct h g q Hg).
  unfold max_iterations. cbn [ik_loop].
  rewrite (list_lookup_total_middle h [] q) by reflexivity.
  rewrite Hit. reflexivity.
Qed.

(** X10.  [inverse_kinematics] lets no [LinAlgError] through: the pose of
    the current iterate is always invertible, so [np.linalg.inv] does not
    raise there, and the [LinAlgError] of [pinv] is turned into [None].
    What it raises is [ValueError], or [IndexError] when the target has four
    rows and fewer than four columns (the read of [pose_error[:3, 3]]). *)
Theorem inverse_kinematics_exceptions
    (pinv : matrix -> option matrix) (dh : list DH) (target_pose : matrix)
    (initial_guess : option loc) (h : heap) (e : exn) :
  returned (inverse_kinematics pinv (RobotKinematics_init dh) target_pose
              initial_guess h) = Raise e ->
  e = ValueError
  \/ (e = IndexError /\ nrows target_pose = 4%nat /\ (ncols target_pose < 4)%nat).
Proof.
  rewrite inverse_kinematics_unfold.
  destruct initial_guess; apply ik_loop_exceptions.
Qed.

Lemma inverse_kinematics_exceptions_witness :
  returned (inverse_kinematics pinv_failing (RobotKinematics_init [(1, 0, 0, 0)])
              narrow_target (Some 0%nat) [[0]]) = Raise IndexError
  /\ (IndexError = ValueError
      \/ (IndexError = IndexError
          /\ nrows narrow_target = 4%nat /\ (ncols narrow_target < 4)%nat)).
Proof.
  assert (H : returned (inverse_kinematics pinv_failing
                          (RobotKinematics_init [(1, 0, 0, 0)])
                          narrow_target (Some 0%nat) [[0]]) = Raise IndexError).
  2: { split; [exact H|].
       apply (inverse_kinematics_exceptions pinv_failing
                [(1, 0, 0, 0)] narrow_target (Some 0%nat) [[0]] IndexError H). }
  rewrite (ik_first_pass_raises pinv_failing
             (RobotKinematics_init [(1, 0, 0, 0)]) narrow_target [[0]] 0%nat
             [0] IndexError).
  - reflexivity.
  - reflexivity.
  - apply ik_iteration_target_cols; [reflexivity | reflexivity |].
    cbn [ncols narrow_target hd length]. lia.
Defined.

(** X26.  A target pose of the wrong shape ends the call in its first pass,
    guess of the right length given: without four rows, [@] raises
    [ValueError]; with four rows and fewer than four columns, the read of
    [pose_error[:3, 3]] raises [IndexError].  The caller's arrays are left
    as they were. *)
Theorem inverse_kinematics_wrong_target_shape
    (pinv : matrix -> option matrix) (dh : list DH) (target_pose : matrix)
    (h : heap) (g : loc) (q : vector) :
  h !! g = Some q ->
  length q = length dh ->
  (nrows target_pose <> 4%nat ->
   inverse_kinematics pinv (RobotKinematics_init dh) target_pose (Some g) h
   = {| returned := Raise ValueError; store := h ++ [q]; passes := 1 |})
  /\ (nrows target_pose = 4%nat ->
      (ncols target_pose < 4)%nat ->
      inverse_kinematics pinv (RobotKinematics_init dh) target_pose (Some g) h
      = {| returned := Raise IndexError; store := h ++ [q]; passes := 1 |}).
Proof.
  intros Hg Hlen. split.
  - intros Hrows. apply ik_first_pass_raises; [exact Hg|].
    apply ik_iteration_target_rows; assumption.
  - intros Hrows Hcols. apply ik_first_pass_raises; [exact Hg|].
    apply ik_iteration_target_cols; assumption.
Qed.

Lemma inverse_kinematics_wrong_target_shape_witness :
  (nrows narrow_target <> 4%nat ->
   inverse_kinematics pinv_failing (RobotKinematics_init [(1, 0, 0, 0)])
     narrow_target (Some 0%nat) [[0]]
   = {| returned := Raise ValueError; store := [[0]] ++ [[0]]; passes := 1 |})
  /\ (nrows narrow_target = 4%nat ->
      (ncols narrow_target < 4)%nat ->
      inverse_kinematics pinv_failing (RobotKinematics_init [(1, 0, 0, 0)])
        narrow_target (Some 0%nat) [[0]]
      = {| returned := Raise IndexError; store := [[0]] ++ [[0]]; passes := 1 |}).
Proof.
  apply (inverse_kinematics_wrong_target_shape pinv_failing [(1, 0, 0, 0)]
           narrow_target [[0]] 0%nat [0]); reflexivity.
Defined.

(** X11.  When the target has four rows and at least four columns, [pinv]
    answers a 6xN Jacobian with an Nx6 matrix, as numpy's does, and the
    guess (if given) has one angle per joint, the call raises nothing: it
    returns a solution or [None]. *)
Theorem inverse_kinematics_never_raises
    (pinv : matrix -> option matrix) (dh : list DH) (target_pose : matrix)
    (initial_guess : option loc) (h : heap) :
  nrows target_pose = 4%nat ->
  (4 <= ncols target_pose)%nat ->
  (forall J P, length J = 6%nat -> pinv J = Some P ->
               length P = ncols J /\ Forall (fun row => length row = 6%nat) P) ->
  match initial_guess with
  | Some g => exists q, h !! g = Some q /\ length q = length dh
  | None => True
  end ->
  exists v,
    returned (inverse_kinematics pinv (RobotKinematics_init dh) target_pose
                initial_guess h) = Return v.
Proof.
  intros Hrows Hcols Hshape Hguess. rewrite inverse_kinematics_unfold.
  destruct initial_guess as [g|].
  - destruct Hguess as (q & Hg & Hlen).
    rewrite (list_lookup_total_correct h g q Hg).
    apply (ik_loop_total pinv dh target_pose Hshape Hrows Hcols).
    + rewrite length_app. cbn [length]. lia.
    + rewrite (list_lookup_total_middle h [] q) by reflexivity. exact Hlen.
  - apply (ik_loop_total pinv dh target_pose Hshape Hrows Hcols).
    + rewrite !length_app. cbn [length]. lia.
    + rewrite (list_lookup_total_middle (h ++ [zeros (length dh)]) [])
        by (rewrite length_app; cbn [length]; lia).
      unfold zeros. apply length_replicate.
Qed.

Lemma pinv_zero_shape (J P : matrix) :
  length J = 6%nat -> pinv_zero J = Some P ->
  length P = ncols J /\ Forall (fun row => length row = 6%nat) P.
Proof.
  intros HJ [= <-]. unfold zeros2, zeros, nrows. split.
  - apply length_replicate.
  - apply Forall_replicate. rewrite length_replicate. exact HJ.
Qed.

Lemma inverse_kinematics_never_raises_witness :
  exists v,
    returned (inverse_kinematics pinv_zero (RobotKinematics_init [(1, 0, 0, 0)])
                shifted_pose None []) = Return v.
Proof.
  apply (inverse_kinematics_never_raises pinv_zero [(1, 0, 0, 0)] shifted_pose
           None []).
  - reflexivity.
  - cbn [ncols shifted_pose hd length]. lia.
  - apply pinv_zero_shape.
  - exact I.
Defined.

(** ** Further properties of the planner *)

Lemma setitem_row_ok (M : matrix) (i : nat) (v : vector) (w : nat) :
  (i < length M)%nat ->
  Forall (fun row => length row = w) M ->
  length v = w ->
  setitem_row M i v = Return (<[i := v]> M)
  /\ Forall (fun row => length row = w) (<[i := v]> M).
Proof.
  intros Hi HM Hv. unfold setitem_row.
  destruct (lookup_lt_is_Some_2 M i Hi) as [row Hrow]. rewrite Hrow.
  assert (Hr : length row = w).
  { rewrite Forall_forall in HM. apply HM.
    apply list_elem_of_lookup. eauto. }
  rewrite Hv, Hr, Nat.eqb_refl. split; [reflexivity|].
  apply Forall_insert; assumption.
Qed.

Lemma matvec_transpose_length (c : matrix) (v : vector) :
  length (matvec (transpose c) v) = ncols c.
Proof.
  unfold matvec, transpose. rewrite !length_map, length_seq. reflexivity.
Qed.

Lemma sample_loop_succeeds (c : matrix) (ts : vector) (s : nat) (P V : matrix) :
  Forall (fun row => length row = ncols c) P ->
  Forall (fun row => length row = ncols c) V ->
  (s + length ts <= length P)%nat ->
  (s + length ts <= length V)%nat ->
  exists P' V',
    foldM (sample_step c) (enumerate_from s ts) (P, V) = Return (P', V')
    /\ Forall (fun row => length row = ncols c) P'
    /\ Forall (fun row => length row = ncols c) V'.
Proof.
  revert s P V. induction ts as [|t ts IH]; intros s P V HP HV HlP HlV;
    cbn [enumerate_from foldM].
  - exists P, V. repeat split; assumption.
  - cbn [length] in HlP, HlV. unfold sample_step at 1.
    destruct (setitem_row_ok P s
                (matvec (transpose c) [1; t; t ^ 2; t ^ 3; t ^ 4; t ^ 5]) (ncols c))
      as [-> HP1]; [lia | exact HP | apply matvec_transpose_length |].
    cbn [bind].
    destruct (setitem_row_ok V s
                (matvec (transpose c)
                   [0; 1; 2 * t; 3 * t ^ 2; 4 * t ^ 3; 5 * t ^ 4]) (ncols c))
      as [-> HV1]; [lia | exact HV | apply matvec_transpose_length |].
    cbn [bind].
    apply IH; try assumption; rewrite length_insert; lia.
Qed.

Lemma column_stack_ok (v : vector) (vs : list vector) :
  Forall (fun u => length u = length v) vs ->
  column_stack (v :: vs)
  = Return (map (fun i => map (fun u => nth i u 0) (v :: vs)) (seq 0 (length v))).
Proof.
  intros H. unfold column_stack.
  assert (Hall : forallb (fun u => (length u =? length v)%nat) (v :: vs) = true).
  { cbn [forallb]. rewrite Nat.eqb_refl. cbn [andb].
    apply forallb_forall. intros u Hu. rewrite Forall_forall in H.
    apply Nat.eqb_eq, H, list_elem_of_In, Hu. }
  rewrite Hall. reflexivity.
Qed.

Lemma column_stack_inv (v : vector) (vs : list vector) (b : matrix) :
  column_stack (v :: vs) = Return b ->
  Forall (fun u => length u = length v) vs
  /\ b = map (fun i => map (fun u => nth i u 0) (v :: vs)) (seq 0 (length v)).
Proof.
  unfold column_stack.
  destruct (forallb _ _) eqn:Hall; [|discriminate].
  intros [= <-]. split; [|reflexivity].
  cbn [forallb] in Hall. apply andb_prop in Hall as [_ Hall].
  apply Forall_forall. intros u Hu.
  rewrite forallb_forall in Hall. apply Nat.eqb_eq, Hall, list_elem_of_In, Hu.
Qed.

Lemma solve_boundary_ok (tf : R) (b : matrix) :
  length b = 6%nat -> tf <> 0 ->
  solve (boundary_matrix 0 tf) b
  = Return (matmul (exact_inverse (boundary_matrix 0 tf)) b).
Proof.
  intros Hb Htf. unfold solve. rewrite boundary_matrix_square. cbn [negb].
  rewrite Hb. cbn [length boundary_matrix Nat.eqb negb].
  destruct (Req_dec_T _ 0) as [Hz|_]; [|reflexivity].
  exfalso. apply Htf, (proj1 (boundary_matrix_singular_iff tf)), Hz.
Qed.

Lemma solve_boundary_inv (tf : R) (b c : matrix) :
  solve (boundary_matrix 0 tf) b = Return c ->
  length b = 6%nat /\ tf <> 0
  /\ c = matmul (exact_inverse (boundary_matrix 0 tf)) b.
Proof.
  unfold solve. rewrite boundary_matrix_square. cbn [negb].
  destruct (Nat.eqb_spec (length b) (length (boundary_matrix 0 tf))) as [Hb|_];
    cbn [negb]; [|discriminate].
  destruct (Req_dec_T _ 0) as [|Hnz]; [discriminate|].
  intros [= <-]. split; [exact Hb|]. split; [|reflexivity].
  intros Htf. apply Hnz, (proj2 (boundary_matrix_singular_iff tf)), Htf.
Qed.

Lemma coefficients_ncols (tf : R) (v : vector) (vs : list vector) :
  length v = 6%nat ->
  ncols (matmul (exact_inverse (boundary_matrix 0 tf))
           (map (fun i => map (fun u => nth i u 0) (v :: vs)) (seq 0 (length v))))
  = S (length vs).
Proof.
  intros Hv. rewrite Hv. cbn [seq map]. unfold exact_inverse, mdiv, adjugate.
  cbn [boundary_matrix length seq map matmul ncols hd].
  rewrite length_map, length_seq. cbn [length]. rewrite length_map. reflexivity.
Qed.

Lemma linspace_lookup (start stop : R) (num i : nat) :
  (1 < num)%nat -> (i < num)%nat ->
  linspace start stop num !! i
  = Some (if (i =? num - 1)%nat then stop
          else INR i * ((stop - start) / INR (num - 1)) + start).
Proof.
  intros Hnum Hi. unfold linspace.
  destruct (Nat.ltb_spec 1 num) as [_|]; [|lia].
  destruct (Nat.eqb_spec i (num - 1)) as [->|Hne].
  - apply list_lookup_insert_eq. rewrite length_map, length_seq. lia.
  - rewrite list_lookup_insert_ne by congruence.
    rewrite list_lookup_fmap, lookup_seq_lt by exact Hi. reflexivity.
Qed.

Lemma linspace_increasing (stop : R) (num i j : nat) (ti tj : R) :
  0 < stop -> (i < j)%nat ->
  linspace 0 stop num !! i = Some ti ->
  linspace 0 stop num !! j = Some tj ->
  ti < tj.
Proof.
  intros Hstop Hij Hi Hj.
  assert (Hjn : (j < num)%nat).
  { apply lookup_lt_Some in Hj. rewrite linspace_length in Hj. exact Hj. }
  rewrite linspace_lookup in Hi by lia. rewrite linspace_lookup in Hj by lia.
  injection Hi as <-. injection Hj as <-.
  assert (Hn : 0 < INR (num - 1)) by (apply lt_0_INR; lia).
  assert (Hstep : 0 < (stop - 0) / INR (num - 1)).
  { apply Rdiv_lt_0_compat; lra. }
  destruct (Nat.eqb_spec i (num - 1)) as [|_]; [lia|].
  destruct (Nat.eqb_spec j (num - 1)) as [->|_].
  - assert (Hlt : INR i < INR (num - 1)) by (apply lt_INR; lia).
    replace stop with (INR (num - 1) * ((stop - 0) / INR (num - 1))) at 2
      by (field; lra).
    nra.
  - assert (Hlt : INR i < INR j) by (apply lt_INR; exact Hij).
    nra.
Qed.

Lemma plan_trajectory_returns_inv
    (self : TrajectoryPlanner) (start_pos end_pos : vector)
    (start_vel end_vel : option vector) (duration : R)
    (samples : vector * matrix * matrix) :
  plan_trajectory self start_pos end_pos start_vel end_vel duration
  = Return samples ->
  length start_pos = 6%nat /\ length end_pos = 6%nat
  /\ from_option (fun v => length v = 6%nat) True start_vel
  /\ from_option (fun v => length v = 6%nat) True end_vel
  /\ duration <> 0.
Proof.
  unfold plan_trajectory. intros H.
  destruct (column_stack _) as [b|e] eqn:Hb; cbn [bind] in H; [|discriminate].
  destruct (solve _ b) as [c|e] eqn:Hc; cbn [bind] in H; [|discriminate].
  apply solve_boundary_inv in Hc as (Hb6 & Htf & _).
  apply column_stack_inv in Hb as [Hall ->].
  rewrite length_map, length_seq in Hb6.
  rewrite Hb6 in Hall.
  inversion_clear Hall as [|? ? Hv0 Hall1].
  inversion_clear Hall1 as [|? ? _ Hall2].
  inversion_clear Hall2 as [|? ? Hsf Hall3].
  inversion_clear Hall3 as [|? ? Hvf _].
  repeat split; try assumption.
  - destruct start_vel; [exact Hv0 | exact I].
  - destruct end_vel; [exact Hvf | exact I].
Qed.

Lemma plan_trajectory_returns_ok
    (self : TrajectoryPlanner) (start_pos end_pos : vector)
    (start_vel end_vel : option vector) (duration : R) :
  length start_pos = 6%nat -> length end_pos = 6%nat ->
  from_option (fun v => length v = 6%nat) True start_vel ->
  from_option (fun v => length v = 6%nat) True end_vel ->
  duration <> 0 ->
  exists ps vs,
    plan_trajectory self start_pos end_pos start_vel end_vel duration
    = Return (linspace 0 duration num_points, ps, vs)
    /\ Forall (fun row => length row = 6%nat) ps
    /\ Forall (fun row => length row = 6%nat) vs.
Proof.
  intros Hs He Hsv Hev Htf. unfold plan_trajectory.
  assert (Hz : length (zeros (length start_pos)) = length start_pos)
    by (unfold zeros; apply length_replicate).
  assert (Hv0 : length (default (zeros (length start_pos)) start_vel)
                = length start_pos)
    by (destruct start_vel as [v|]; [cbn in Hsv |- *; lia | exact Hz]).
  assert (Hvf : length (default (zeros (length start_pos)) end_vel)
                = length start_pos)
    by (destruct end_vel as [v|]; [cbn in Hev |- *; lia | exact Hz]).
  rewrite column_stack_ok
    by (repeat constructor; try assumption; lia).
  cbn [bind].
  rewrite solve_boundary_ok
    by (rewrite ?length_map, ?length_seq; assumption).
  cbn [bind].
  match goal with
  | |- context [foldM (sample_step ?c) (enumerate ?ts) (?P, ?V)] =>
      destruct (sample_loop_succeeds c ts 0 P V) as (P' & V' & Hrun & HP' & HV')
  end.
  - rewrite coefficients_ncols by exact Hs. cbn [length].
    unfold zeros2. apply Forall_replicate. rewrite Hz. exact Hs.
  - rewrite coefficients_ncols by exact Hs. cbn [length].
    unfold zeros2. apply Forall_replicate. rewrite Hz. exact Hs.
  - rewrite linspace_length. unfold zeros2. rewrite length_replicate.
    unfold num_points. lia.
  - rewrite linspace_length. unfold zeros2. rewrite length_replicate.
    unfold num_points. lia.
  - unfold enumerate. rewrite Hrun. cbn [bind fst snd].
    rewrite coefficients_ncols in HP', HV' by exact Hs.
    exists P', V'. repeat split; assumption.
Qed.

(** X12.  [plan_trajectory] returns samples exactly when the start and end
    positions and the velocities that are given have six coordinates each and
    the duration is not zero; in every other case it raises. *)
Theorem plan_trajectory_returns_iff
    (self : TrajectoryPlanner) (start_pos end_pos : vector)
    (start_vel end_vel : option vector) (duration : R) :
  (exists samples,
     plan_trajectory self start_pos end_pos start_vel end_vel duration
     = Return samples)
  <-> (length start_pos = 6%nat /\ length end_pos = 6%nat
       /\ from_option (fun v => length v = 6%nat) True start_vel
       /\ from_option (fun v => length v = 6%nat) True end_vel
       /\ duration <> 0).
Proof.
  split.
  - intros [samples H]. apply (plan_trajectory_returns_inv _ _ _ _ _ _ _ H).
  - intros (Hs & He & Hsv & Hev & Htf).
    destruct (plan_trajectory_returns_ok self start_pos end_pos start_vel end_vel
                duration Hs He Hsv Hev Htf) as (ps & vs & H & _).
    eexists. exact H.
Qed.

(** X13.  When [plan_trajectory] returns, the time array has 100 points,
    starts at 0 and ends at the duration, and is strictly increasing for a
    positive duration; the position and velocity arrays have 100 rows of six
    entries. *)
Theorem plan_trajectory_sample_grid
    (self : TrajectoryPlanner) (start_pos end_pos : vector)
    (start_vel end_vel : option vector) (duration : R)
    (ts : vector) (ps vs : matrix) :
  plan_trajectory self start_pos end_pos start_vel end_vel duration
  = Return (ts, ps, vs) ->
  length ts = 100%nat
  /\ ts !! 0%nat = Some 0
  /\ ts !! 99%nat = Some duration
  /\ (0 < duration ->
      forall i j ti tj, (i < j)%nat -> ts !! i = Some ti -> ts !! j = Some tj ->
                        ti < tj)
  /\ length ps = 100%nat /\ length vs = 100%nat
  /\ Forall (fun row => length row = 6%nat) ps
  /\ Forall (fun row => length row = 6%nat) vs.
Proof.
  intros H.
  destruct (plan_trajectory_returns_inv _ _ _ _ _ _ _ H)
    as (Hs & He & Hsv & Hev & Htf).
  destruct (plan_trajectory_returns_ok self start_pos end_pos start_vel end_vel
              duration Hs He Hsv Hev Htf) as (ps' & vs' & H' & Hps & Hvs).
  rewrite H in H'. simplify_eq.
  split; [apply linspace_length|].
  split; [rewrite linspace_lookup by (unfold num_points; lia);
          cbn [Nat.eqb num_points Nat.sub INR]; f_equal; lra|].
  split; [rewrite linspace_lookup by (unfold num_points; lia); reflexivity|].
  split; [intros Hpos i j ti tj; apply linspace_increasing, Hpos|].
  assert (Hall := H). unfold plan_trajectory in Hall.
  destruct (column_stack _) as [b|e]; cbn [bind] in Hall; [|discriminate].
  destruct (solve _ b) as [c|e]; cbn [bind] in Hall; [|discriminate].
  destruct (foldM _ _ _) as [[P V]|e] eqn:Hloop; cbn [bind] in Hall;
    [|discriminate].
  simplify_eq.
  destruct (sample_loop_length _ _ _ _ _ _ Hloop) as [HlP HlV].
  unfold zeros2 in HlP, HlV. rewrite length_replicate in HlP, HlV.
  repeat split; assumption.
Qed.

Lemma plan_trajectory_sample_grid_witness :
  exists ts ps vs,
    plan_trajectory (TrajectoryPlanner_init 1 0.5)
      [0; 0; 0; 0; 0; 0] [1; 1; 1; 1; 1; 1] None None 2 = Return (ts, ps, vs)
    /\ length ts = 100%nat
    /\ ts !! 0%nat = Some 0
    /\ ts !! 99%nat = Some 2
    /\ (0 < 2 ->
        forall i j ti tj, (i < j)%nat -> ts !! i = Some ti -> ts !! j = Some tj ->
                          ti < tj)
    /\ length ps = 100%nat /\ length vs = 100%nat
    /\ Forall (fun row => length row = 6%nat) ps
    /\ Forall (fun row => length row = 6%nat) vs.
Proof.
  destruct (plan_trajectory_returns_ok (TrajectoryPlanner_init 1 0.5)
              [0; 0; 0; 0; 0; 0] [1; 1; 1; 1; 1; 1] None None 2)
    as (ps & vs & H & _); try reflexivity; try exact I; try lra.
  exists (linspace 0 2 num_points), ps, vs. split; [exact H|].
  apply (plan_trajectory_sample_grid (TrajectoryPlanner_init 1 0.5)
           [0; 0; 0; 0; 0; 0] [1; 1; 1; 1; 1; 1] None None 2 _ ps vs H).
Defined.

(** *** What the sampled polynomials interpolate *)

Section Quintic.

Variable tf : R.

Local Abbreviation A := (boundary_matrix 0 tf).

(** The cofactors of the boundary matrix. *)
Ltac cofactor_value := unfold cofactor, boundary_matrix; np_cbn; ring.

Lemma boundary_cofactor_00 : cofactor A 0 0 = 4 * tf ^ 9.
Proof. cofactor_value. Qed.

Lemma boundary_cofactor_01 : cofactor A 0 1 = 0.
Proof. cofactor_value. Qed.

Lemma boundary_cofactor_02 : cofactor A 0 2 = 0.
Proof. cofactor_value. Qed.

Lemma boundary_cofactor_03 : cofactor A 0 3 = (-40) * tf ^ 6.
Proof. cofactor_value. Qed.

Lemma boundary_cofactor_04 : cofactor A 0 4 = 60 * tf ^ 5.
Proof. cofactor_value. Qed.

Lemma boundary_cofactor_05 : cofactor A 0 5 = (-24) * tf ^ 4.
Proof. cofactor_value. Qed.

Lemma boundary_cofactor_10 : cofactor A 1 0 = 0.
Proof. cofactor_value. Qed.

Lemma boundary_cofactor_11 : cofactor A 1 1 = 4 * tf ^ 9.
Proof. cofactor_value. Qed.

Lemma boundary_cofactor_12 : cofactor A 1 2 = 0.
Proof. cofactor_value. Qed.

Lemma boundary_cofactor_13 : cofactor A 1 3 = (-24) * tf ^ 7.
Proof. cofactor_value. Qed.

Lemma boundary_cofactor_14 : cofactor A 1 4 = 32 * tf ^ 6.
Proof. cofactor_value. Qed.

Lemma boundary_cofactor_15 : cofactor A 1 5 = (-12) * tf ^ 5.
Proof. cofactor_value. Qed.

Lemma boundary_cofactor_20 : cofactor A 2 0 = 0.
Proof. cofactor_value. Qed.

Lemma boundary_cofactor_21 : cofactor A 2 1 = 0.
Proof. cofactor_value. Qed.

Lemma boundary_cofactor_22 : cofactor A 2 2 = 2 * tf ^ 9.
Proof. cofactor_value. Qed.

Lemma boundary_cofactor_23 : cofactor A 2 3 = (-6) * tf ^ 8.
Proof. cofactor_value. Qed.

Lemma boundary_cofactor_24 : cofactor A 2 4 = 6 * tf ^ 7.
Proof. cofactor_value. Qed.

Lemma boundary_cofactor_25 : cofactor A 2 5 = (-2) * tf ^ 6.
Proof. cofactor_value. Qed.

Lemma boundary_cofactor_30 : cofactor A 3 0 = 0.
Proof. cofactor_value. Qed.

Lemma boundary_cofactor_31 : cofactor A 3 1 = 0.
Proof. cofactor_value. Qed.

Lemma boundary_cofactor_32 : cofactor A 3 2 = 0.
Proof. cofactor_value. Qed.

Lemma boundary_cofactor_33 : cofactor A 3 3 = 40 * tf ^ 6.
Proof. cofactor_value. Qed.

Lemma boundary_cofactor_34 : cofactor A 3 4 = (-60) * tf ^ 5.
Proof. cofactor_value. Qed.

Lemma boundary_cofactor_35 : cofactor A 3 5 = 24 * tf ^ 4.
Proof. cofactor_value. Qed.

Lemma boundary_cofactor_40 : cofactor A 4 0 = 0.
Proof. cofactor_value. Qed.

Lemma boundary_cofactor_41 : cofactor A 4 1 = 0.
Proof. cofactor_value. Qed.

Lemma boundary_cofactor_42 : cofactor A 4 2 = 0.
Proof. cofactor_value. Qed.

Lemma boundary_cofactor_43 : cofactor A 4 3 = (-16) * tf ^ 7.
Proof. cofactor_value. Qed.

Lemma boundary_cofactor_44 : cofactor A 4 4 = 28 * tf ^ 6.
Proof. cofactor_value. Qed.

Lemma boundary_cofactor_45 : cofactor A 4 5 = (-12) * tf ^ 5.
Proof. cofactor_value. Qed.

Lemma boundary_cofactor_50 : cofactor A 5 0 = 0.
Proof. cofactor_value. Qed.

Lemma boundary_cofactor_51 : cofactor A 5 1 = 0.
Proof. cofactor_value. Qed.

Lemma boundary_cofactor_52 : cofactor A 5 2 = 0.
Proof. cofactor_value. Qed.

Lemma boundary_cofactor_53 : cofactor A 5 3 = 2 * tf ^ 8.
Proof. cofactor_value. Qed.

Lemma boundary_cofactor_54 : cofactor A 5 4 = (-4) * tf ^ 7.
Proof. cofactor_value. Qed.

Lemma boundary_cofactor_55 : cofactor A 5 5 = 2 * tf ^ 6.
Proof. cofactor_value. Qed.

Ltac rewrite_cofactors :=
  rewrite
    boundary_cofactor_00, boundary_cofactor_01, boundary_cofactor_02, boundary_cofactor_03, boundary_cofactor_04, boundary_cofactor_05,
    boundary_cofactor_10, boundary_cofactor_11, boundary_cofactor_12, boundary_cofactor_13, boundary_cofactor_14, boundary_cofactor_15,
    boundary_cofactor_20, boundary_cofactor_21, boundary_cofactor_22, boundary_cofactor_23, boundary_cofactor_24, boundary_cofactor_25,
    boundary_cofactor_30, boundary_cofactor_31, boundary_cofactor_32, boundary_cofactor_33, boundary_cofactor_34, boundary_cofactor_35,
    boundary_cofactor_40, boundary_cofactor_41, boundary_cofactor_42, boundary_cofactor_43, boundary_cofactor_44, boundary_cofactor_45,
    boundary_cofactor_50, boundary_cofactor_51, boundary_cofactor_52, boundary_cofactor_53, boundary_cofactor_54, boundary_cofactor_55.

Hypothesis Htf : tf <> 0.

Variables b00 b01 b02 b03 b04 b05 b10 b11 b12 b13 b14 b15 b20 b21 b22 b23 b24 b25 b30 b31 b32 b33 b34 b35 b40 b41 b42 b43 b44 b45 b50 b51 b52 b53 b54 b55 : R.

Local Abbreviation B :=
  ([[b00; b01; b02; b03; b04; b05];
     [b10; b11; b12; b13; b14; b15];
     [b20; b21; b22; b23; b24; b25];
     [b30; b31; b32; b33; b34; b35];
     [b40; b41; b42; b43; b44; b45];
     [b50; b51; b52; b53; b54; b55]]).

Lemma quintic_position_at_start :
  matvec (transpose (matmul (exact_inverse A) B)) [1; 0; 0 ^ 2; 0 ^ 3; 0 ^ 4; 0 ^ 5]
  = [b00; b01; b02; b03; b04; b05].
Proof.
  unfold exact_inverse. rewrite boundary_matrix_det.
  cbn [matmul matvec transpose col dot mdiv adjugate ncols boundary_matrix
       map seq hd length fold_right zip_with nth].
  fold (boundary_matrix 0 tf). rewrite_cofactors.
  list_eq; field; exact Htf.
Qed.

Lemma quintic_position_at_end :
  matvec (transpose (matmul (exact_inverse A) B)) [1; tf; tf ^ 2; tf ^ 3; tf ^ 4; tf ^ 5]
  = [b30; b31; b32; b33; b34; b35].
Proof.
  unfold exact_inverse. rewrite boundary_matrix_det.
  cbn [matmul matvec transpose col dot mdiv adjugate ncols boundary_matrix
       map seq hd length fold_right zip_with nth].
  fold (boundary_matrix 0 tf). rewrite_cofactors.
  list_eq; field; exact Htf.
Qed.

Lemma quintic_velocity_at_start :
  matvec (transpose (matmul (exact_inverse A) B)) [0; 1; 2 * 0; 3 * 0 ^ 2; 4 * 0 ^ 3; 5 * 0 ^ 4]
  = [b10; b11; b12; b13; b14; b15].
Proof.
  unfold exact_inverse. rewrite boundary_matrix_det.
  cbn [matmul matvec transpose col dot mdiv adjugate ncols boundary_matrix
       map seq hd length fold_right zip_with nth].
  fold (boundary_matrix 0 tf). rewrite_cofactors.
  list_eq; field; exact Htf.
Qed.

Lemma quintic_velocity_at_end :
  matvec (transpose (matmul (exact_inverse A) B)) [0; 1; 2 * tf; 3 * tf ^ 2; 4 * tf ^ 3; 5 * tf ^ 4]
  = [b40; b41; b42; b43; b44; b45].
Proof.
  unfold exact_inverse. rewrite boundary_matrix_det.
  cbn [matmul matvec transpose col dot mdiv adjugate ncols boundary_matrix
       map seq hd length fold_right zip_with nth].
  fold (boundary_matrix 0 tf). rewrite_cofactors.
  list_eq; field; exact Htf.
Qed.

End Quintic.

Lemma sample_loop_untouched (c : matrix) (ts : vector) (s i : nat)
    (P V P' V' : matrix) :
  foldM (sample_step c) (enumerate_from s ts) (P, V) = Return (P', V') ->
  (i < s)%nat -> P' !! i = P !! i /\ V' !! i = V !! i.
Proof.
  revert s P V. induction ts as [|t ts IH]; intros s P V; cbn [enumerate_from foldM].
  - intros [= <- <-] _. split; reflexivity.
  - unfold sample_step at 1.
    destruct (setitem_row P s _) as [P1|e] eqn:HP; cbn [bind]; [|discriminate].
    destruct (setitem_row V s _) as [V1|e] eqn:HV; cbn [bind]; [|discriminate].
    intros H Hi. destruct (IH (S s) P1 V1 H) as [-> ->]; [lia|].
    apply setitem_row_lookup in HP as [_ HP]. apply setitem_row_lookup in HV as [_ HV].
    split; [apply HP | apply HV]; lia.
Qed.

(** Row i of the position and velocity arrays is written once, from the
    time point i. *)
Lemma sample_loop_lookup (c : matrix) (ts : vector) (s i : nat) (t : R)
    (P V P' V' : matrix) :
  foldM (sample_step c) (enumerate_from s ts) (P, V) = Return (P', V') ->
  ts !! i = Some t ->
  P' !! (s + i)%nat
  = Some (matvec (transpose c) [1; t; t ^ 2; t ^ 3; t ^ 4; t ^ 5])
  /\ V' !! (s + i)%nat
     = Some (matvec (transpose c) [0; 1; 2 * t; 3 * t ^ 2; 4 * t ^ 3; 5 * t ^ 4]).
Proof.
  revert s i P V. induction ts as [|t0 ts IH]; intros s i P V;
    cbn [enumerate_from foldM]; [discriminate 2|].
  unfold sample_step at 1.
  destruct (setitem_row P s _) as [P1|e] eqn:HP; cbn [bind]; [|discriminate].
  destruct (setitem_row V s _) as [V1|e] eqn:HV; cbn [bind]; [|discriminate].
  intros H Hi. destruct i as [|i].
  - injection Hi as ->. rewrite Nat.add_0_r.
    destruct (sample_loop_untouched c ts (S s) s P1 V1 P' V' H) as [-> ->]; [lia|].
    apply setitem_row_lookup in HP as [HP _]. apply setitem_row_lookup in HV as [HV _].
    split; assumption.
  - replace (s + S i)%nat with (S s + i)%nat by lia.
    apply (IH (S s) i P1 V1 H Hi).
Qed.

(** X14.  What a returned trajectory does at its two ends.  The code stacks
    the six boundary vectors start_pos, start_vel, 0, end_pos, end_vel, 0 as
    columns, so output coordinate k is the quintic whose boundary data are the
    six entries of the k-th of these vectors: the first and last position
    samples are rows 0 and 3 of the stacked array, the first and last
    velocity samples rows 1 and 4.  (Coordinate 0 starts at start_pos[0] and
    ends at start_pos[3].) *)
Theorem plan_trajectory_endpoints
    (self : TrajectoryPlanner) (start_pos end_pos : vector)
    (start_vel end_vel : option vector) (duration : R)
    (ts : vector) (ps vs : matrix) :
  plan_trajectory self start_pos end_pos start_vel end_vel duration
  = Return (ts, ps, vs) ->
  let stacked := [ start_pos; default (zeros (length start_pos)) start_vel;
                   zeros (length start_pos); end_pos;
                   default (zeros (length start_pos)) end_vel;
                   zeros (length start_pos) ] in
  ps !! 0%nat = Some (map (fun u => nth 0 u 0) stacked)
  /\ ps !! 99%nat = Some (map (fun u => nth 3 u 0) stacked)
  /\ vs !! 0%nat = Some (map (fun u => nth 1 u 0) stacked)
  /\ vs !! 99%nat = Some (map (fun u => nth 4 u 0) stacked).
Proof.
  intros H stacked.
  destruct (plan_trajectory_returns_inv _ _ _ _ _ _ _ H)
    as (Hs & _ & _ & _ & Htf).
  assert (Ht0 : linspace 0 duration num_points !! 0%nat = Some 0).
  { rewrite linspace_lookup by (unfold num_points; lia).
    cbn [Nat.eqb num_points Nat.sub INR]. f_equal. lra. }
  assert (Ht1 : linspace 0 duration num_points !! 99%nat = Some duration).
  { rewrite linspace_lookup by (unfold num_points; lia). reflexivity. }
  revert H. unfold plan_trajectory.
  destruct (column_stack _) as [b|e] eqn:Hb; cbn [bind]; [|discriminate].
  destruct (solve _ b) as [c|e] eqn:Hc; cbn [bind]; [|discriminate].
  destruct (foldM _ _ _) as [[P V]|e] eqn:Hloop; cbn [bind]; [|discriminate].
  intros [= <- <- <-].
  apply solve_boundary_inv in Hc as (_ & _ & ->).
  apply column_stack_inv in Hb as [_ ->].
  unfold enumerate in Hloop.
  destruct (sample_loop_lookup _ _ 0 0 0 _ _ _ _ Hloop Ht0) as [HP0 HV0].
  destruct (sample_loop_lookup _ _ 0 99 duration _ _ _ _ Hloop Ht1) as [HP1 HV1].
  cbn [Nat.add] in HP0, HV0, HP1, HV1.
  rewrite HP0, HV0, HP1, HV1. subst stacked.
  rewrite Hs. cbn [seq map].
  rewrite quintic_position_at_start, quintic_position_at_end,
    quintic_velocity_at_start, quintic_velocity_at_end by exact Htf.
  repeat split; reflexivity.
Qed.

Lemma plan_trajectory_endpoints_witness :
  exists ts ps vs,
    plan_trajectory (TrajectoryPlanner_init 1 0.5)
      [0; 1; 0; 0; 0; 0] [0; 0; 0; 0; 0; 0] None None 1 = Return (ts, ps, vs)
    /\ ps !! 0%nat = Some [0; 0; 0; 0; 0; 0]
    /\ ps !! 99%nat = Some [0; 0; 0; 0; 0; 0].
Proof.
  destruct (plan_trajectory_returns_ok (TrajectoryPlanner_init 1 0.5)
              [0; 1; 0; 0; 0; 0] [0; 0; 0; 0; 0; 0] None None 1)
    as (ps & vs & H & _); try reflexivity; try exact I; try lra.
  exists (linspace 0 1 num_points), ps, vs. split; [exact H|].
  destruct (plan_trajectory_endpoints (TrajectoryPlanner_init 1 0.5)
              [0; 1; 0; 0; 0; 0] [0; 0; 0; 0; 0; 0] None None 1 _ ps vs H)
    as (H0 & H1 & _).
  split; assumption.
Defined.

(** ** Euler angles of the control example *)

Lemma axis_rotations_orthonormal (x y z : R) :
  orthonormal [ [1; 0; 0]; [0; cos x; - sin x]; [0; sin x; cos x] ]
  /\ orthonormal [ [cos y; 0; sin y]; [0; 1; 0]; [- sin y; 0; cos y] ]
  /\ orthonormal [ [cos z; - sin z; 0]; [sin z; cos z; 0]; [0; 0; 1] ].
Proof.
  pose proof (sin2_cos2 x) as Hx. pose proof (sin2_cos2 y) as Hy.
  pose proof (sin2_cos2 z) as Hz. unfold Rsqr in Hx, Hy, Hz.
  unfold orthonormal. repeat split; np_cbn; list_eq; try ring; nra.
Qed.

(** X15.  For three angles [euler_angles_to_rotation_matrix] returns a
    rotation matrix: Rᵗ·R is the identity and the determinant is 1; for any
    other number of angles it raises [ValueError]. *)
Theorem euler_angles_to_rotation_matrix_orthonormal (euler_angles : vector) :
  (length euler_angles = 3%nat
   /\ exists Rm, euler_angles_to_rotation_matrix euler_angles = Return Rm
                 /\ matmul (transpose Rm) Rm = eye 3 /\ det Rm = 1)
  \/ (length euler_angles <> 3%nat
      /\ euler_angles_to_rotation_matrix euler_angles = Raise ValueError).
Proof.
  destruct euler_angles as [|x [|y [|z [|w l]]]];
    try (right; split; [cbn [length]; lia | reflexivity]).
  left. split; [reflexivity|].
  destruct (axis_rotations_orthonormal x y z) as (Hx & Hy & Hz).
  eexists. split; [reflexivity|].
  assert (Hzy : orthonormal
                  (matmul [ [cos z; - sin z; 0]; [sin z; cos z; 0]; [0; 0; 1] ]
                          [ [cos y; 0; sin y]; [0; 1; 0]; [- sin y; 0; cos y] ]))
    by (apply orthonormal_matmul_33; assumption).
  revert Hzy. np_cbn. intros Hzy.
  apply (orthonormal_matmul_33 _ _ _ _ _ _ _ _ _ 1 0 0 0 (cos x) (- sin x)
           0 (sin x) (cos x) Hzy Hx).
Qed.

(** ** The robot controller *)

Lemma truthy_dict_insert (k : string) (v : pyvalue) (d : gmap string pyvalue) :
  truthy (PDict (<[k := v]> d)) = true.
Proof.
  cbn [truthy]. rewrite bool_decide_eq_false_2; [reflexivity|].
  apply insert_non_empty.
Qed.

Lemma succeeded_not_connected : succeeded leee_robot.not_connected = false.
Proof. reflexivity. Qed.

Section Controller.

Import leee_robot.

Variable W : Type.
Variable exchange : W -> pyvalue -> (string + pyvalue) * W.

Lemma py_get_success (result ok : pyvalue) :
  py_get result "success" (PBool false) = Done ok ->
  succeeded result = truthy ok.
Proof.
  destruct result; cbn [py_get succeeded]; try discriminate.
  intros [= <-]. reflexivity.
Qed.

Lemma run_tasks_results (self : RobotController) (tasks : list (gmap string pyvalue)) :
  forall (w w' : W) (acc res : list pyvalue),
    run_tasks W exchange self w tasks acc = (Done res, w') ->
    exists new,
      res = acc ++ new
      /\ (length new <= length tasks)%nat
      /\ (forall i r, new !! i = Some r -> (S i < length new)%nat ->
                      succeeded r = true)
      /\ ((length new < length tasks)%nat ->
          exists r, last new = Some r /\ succeeded r = false).
Proof.
  induction tasks as [|task tasks IH]; intros w w' acc res; cbn [run_tasks].
  - intros [= <- <-]. exists []. rewrite app_nil_r. cbn [length].
    repeat split; try lia.
  - destruct (interface self) as [i|]; [|discriminate].
    destruct (execute_task W exchange i w _ _) as [result w1].
    destruct (py_get result "success" (PBool false)) as [ok|e] eqn:Hget;
      [|discriminate].
    apply py_get_success in Hget.
    destruct (truthy ok) eqn:Hok; cbn [negb].
    + intros H. apply IH in H as (new & -> & Hlen & Hall & Hlast).
      exists (result :: new). rewrite <- app_assoc. cbn [app length].
      split; [reflexivity|]. split; [lia|]. split.
      * intros [|j] r Hr Hj.
        -- injection Hr as <-. exact Hget.
        -- apply (Hall j r Hr). lia.
      * intros Hlt. destruct Hlast as (r & Hr & Hfail); [lia|].
        exists r. split; [|exact Hfail].
        destruct new as [|x new]; [discriminate|]. exact Hr.
    + intros [= <- <-]. exists [result]. cbn [length].
      split; [reflexivity|]. split; [lia|]. split.
      * intros j r _ Hj. lia.
      * intros _. exists result. split; [reflexivity | exact Hget].
Qed.

End Controller.

(** X16.  [run_task_sequence] stops at the first task that does not
    succeed: when it returns, there is at most one result per task, every
    result but the last is a success, and if fewer results than tasks come
    back the last one is a failure. *)
Theorem run_task_sequence_stops_at_first_failure
    (W : Type) (exchange : W -> pyvalue -> (string + pyvalue) * W)
    (self : leee_robot.RobotController) (w w' : W)
    (tasks : list (gmap string pyvalue)) (results : list pyvalue) :
  leee_robot.run_task_sequence W exchange self w tasks = (Done results, w') ->
  (length results <= length tasks)%nat
  /\ (forall i r, results !! i = Some r -> (S i < length results)%nat ->
                  succeeded r = true)
  /\ ((length results < length tasks)%nat ->
      exists r, last results = Some r /\ succeeded r = false).
Proof.
  intros H. apply run_tasks_results in H as (new & -> & H). exact H.
Qed.


Lemma run_task_sequence_stops_at_first_failure_witness :
  leee_robot.run_task_sequence unit leee_robot.failing_exchange
    {| leee_robot.interface :=
         Some {| leee_robot.host := "localhost"; leee_robot.port := 8080;
                 leee_robot.connected := true |} |}
    tt [∅; ∅]
  = (Done [PDict {[ "success" := PBool false;
                    "error" := PStr "connection lost" ]}], tt)
  /\ (length [PDict {[ "success" := PBool false;
                       "error" := PStr "connection lost" ]}]
      <= length [(∅ : gmap string pyvalue); ∅])%nat.
Proof.
  assert (H : leee_robot.run_task_sequence unit leee_robot.failing_exchange
                {| leee_robot.interface :=
                     Some {| leee_robot.host := "localhost";
                             leee_robot.port := 8080;
                             leee_robot.connected := true |} |}
                tt [∅; ∅]
              = (Done [PDict {[ "success" := PBool false;
                                "error" := PStr "connection lost" ]}], tt))
    by reflexivity.
  split; [exact H|].
  apply (run_task_sequence_stops_at_first_failure unit
           leee_robot.failing_exchange _ tt tt [∅; ∅] _ H).
Defined.

(** X17.  On an interface that is not connected nothing is sent: every
    command returns the error "Not connected to robot server" and leaves the
    connection as it was, and [run_task_sequence] with at least one task
    returns that single error, whatever the number of tasks. *)
Theorem disconnected_interface_sends_nothing
    (W : Type) (exchange : W -> pyvalue -> (string + pyvalue) * W)
    (i : leee_robot.RobotInterface) (w : W) :
  leee_robot.connected i = false ->
  (forall command params,
     leee_robot.send_command W exchange i w command params
     = (leee_robot.not_connected, w))
  /\ leee_robot.get_status W exchange i w = (leee_robot.not_connected, w)
  /\ (forall x y z,
        leee_robot.move_to_position W exchange i w x y z
        = (leee_robot.not_connected, w))
  /\ (forall name params,
        leee_robot.execute_task W exchange i w name params
        = (leee_robot.not_connected, w))
  /\ (forall task tasks,
        leee_robot.run_task_sequence W exchange
          {| leee_robot.interface := Some i |} w (task :: tasks)
        = (Done [leee_robot.not_connected], w)).
Proof.
  intros Hc.
  assert (Hsend : forall command params,
             leee_robot.send_command W exchange i w command params
             = (leee_robot.not_connected, w)).
  { intros command params. unfold leee_robot.send_command. rewrite Hc.
    reflexivity. }
  split; [exact Hsend|].
  split; [apply Hsend|].
  split; [intros x y z; apply Hsend|].
  split; [intros name params; apply Hsend|].
  intros task tasks.
  unfold leee_robot.run_task_sequence. cbn [leee_robot.run_tasks leee_robot.interface].
  unfold leee_robot.execute_task. rewrite Hsend. reflexivity.
Qed.

Lemma disconnected_interface_sends_nothing_witness :
  leee_robot.run_task_sequence unit leee_robot.failing_exchange
    {| leee_robot.interface :=
         Some {| leee_robot.host := "localhost"; leee_robot.port := 8080;
                 leee_robot.connected := false |} |}
    tt [∅; ∅; ∅]
  = (Done [leee_robot.not_connected], tt).
Proof.
  apply (disconnected_interface_sends_nothing unit leee_robot.failing_exchange
           {| leee_robot.host := "localhost"; leee_robot.port := 8080;
              leee_robot.connected := false |} tt).
  reflexivity.
Defined.

(** X18.  A controller that was never initialized answers a status request
    and a movement with the error "Controller not initialized" and sends
    nothing, but [run_task_sequence] does not check: with no task it returns
    the empty list, with at least one it raises [AttributeError]. *)
Theorem uninitialized_controller
    (W : Type) (exchange : W -> pyvalue -> (string + pyvalue) * W) (w : W) :
  let self := {| leee_robot.interface := None |} in
  leee_robot.get_robot_status W exchange self w = (leee_robot.not_initialized, w)
  /\ (forall movement_type kwargs,
        leee_robot.perform_movement W exchange self w movement_type kwargs
        = (leee_robot.not_initialized, w))
  /\ leee_robot.run_task_sequence W exchange self w [] = (Done [], w)
  /\ (forall task tasks,
        leee_robot.run_task_sequence W exchange self w (task :: tasks)
        = (Throws AttributeError, w)).
Proof. repeat split. Qed.

(** X19.  On a connected interface [perform_movement] sends exactly one
    message, and only for the movement type "position": the command
    "move_to" with the coordinates x, y, z, each 0 when it is not given.  Any
    other movement type is answered with an error and nothing is sent. *)
Theorem perform_movement_message
    (W : Type) (exchange : W -> pyvalue -> (string + pyvalue) * W)
    (i : leee_robot.RobotInterface) (w : W)
    (movement_type : string) (kwargs : gmap string pyvalue) :
  leee_robot.connected i = true ->
  let self := {| leee_robot.interface := Some i |} in
  let message :=
    PDict {[ "command" := PStr "move_to";
             "params" := PDict {[ "x" := default (PInt 0) (kwargs !! "x");
                                  "y" := default (PInt 0) (kwargs !! "y");
                                  "z" := default (PInt 0) (kwargs !! "z") ]} ]} in
  (movement_type = "position" ->
   leee_robot.perform_movement W exchange self w movement_type kwargs
   = match exchange w message with
     | (inr result, w') => (result, w')
     | (inl text, w') =>
         (PDict {[ "success" := PBool false; "error" := PStr text ]}, w')
     end)
  /\ (movement_type <> "position" ->
      leee_robot.perform_movement W exchange self w movement_type kwargs
      = (PDict {[ "error" := PStr ("Unsupported movement type: " +:+ movement_type) ]},
         w)).
Proof.
  intros Hc self message. split.
  - intros ->. unfold leee_robot.perform_movement, leee_robot.move_to_position,
      leee_robot.send_command. cbn [leee_robot.interface self].
    rewrite Hc. cbn [negb String.eqb Ascii.eqb Bool.eqb].
    unfold py_or. rewrite truthy_dict_insert. reflexivity.
  - intros Hne. unfold leee_robot.perform_movement. cbn [leee_robot.interface self].
    destruct (String.eqb_spec movement_type "position"); [contradiction|].
    reflexivity.
Qed.

Lemma perform_movement_message_witness :
  leee_robot.perform_movement unit leee_robot.failing_exchange
    {| leee_robot.interface :=
         Some {| leee_robot.host := "localhost"; leee_robot.port := 8080;
                 leee_robot.connected := true |} |}
    tt "joint" ∅
  = (PDict {[ "error" := PStr ("Unsupported movement type: " +:+ "joint") ]}, tt).
Proof.
  apply (perform_movement_message unit leee_robot.failing_exchange
           {| leee_robot.host := "localhost"; leee_robot.port := 8080;
              leee_robot.connected := true |} tt "joint" ∅).
  - reflexivity.
  - discriminate.
Defined.

(** ** The web back end *)

Lemma clip_bounds (x : R) : - PI <= app.clip x <= PI.
Proof.
  pose proof PI_RGT_0 as Hpi. unfold app.clip. split.
  - apply Rmin_glb; [apply Rmax_r | lra].
  - apply Rmin_r.
Qed.

Lemma jitter_spec (noise : nat -> R) (indices : list nat) :
  forall angles angles',
    app.jitter noise indices angles = Done angles' ->
    length angles' = length angles
    /\ (forall i, i ∈ indices ->
          exists r, angles' !! i = Some (PFloat r) /\ - PI <= r <= PI)
    /\ (forall i, i ∉ indices -> angles' !! i = angles !! i).
Proof.
  induction indices as [|i0 indices IH]; intros angles angles'; cbn [app.jitter].
  - intros [= <-]. split; [reflexivity|]. split; [|reflexivity].
    intros i Hi. apply elem_of_nil in Hi. contradiction.
  - destruct (angles !! i0) as [v|] eqn:Hv; [|discriminate].
    destruct (app.as_float v) as [x|e]; cbn [app.obind]; [|discriminate].
    intros H. apply IH in H as (Hlen & Hin & Hout).
    rewrite !length_insert in Hlen.
    assert (Hi0 : (i0 < length angles)%nat) by (apply lookup_lt_is_Some; eauto).
    split; [exact Hlen|]. split.
    + intros i Hi. destruct (decide (i ∈ indices)) as [Hmem|Hnot].
      * apply Hin, Hmem.
      * apply elem_of_cons in Hi as [->|Hi]; [|contradiction].
        rewrite (Hout i0 Hnot).
        rewrite list_lookup_insert_eq by (rewrite length_insert; exact Hi0).
        eexists. split; [reflexivity | apply clip_bounds].
    + intros i Hi. apply not_elem_of_cons in Hi as [Hne Hi].
      rewrite (Hout i Hi). rewrite !list_lookup_insert_ne by congruence.
      reflexivity.
Qed.

(** X20.  After a pass of the state update that does not raise, the six
    joint angles are floats within [-PI, PI] whatever they were before and
    whatever the noise, the number of angles is unchanged, and the
    end-effector pose lies on the circle of radius 0.5 at a height between
    0.1 and 0.5; the pass stamps the time and emits the new state once. *)
Theorem update_robot_state_pass_bounds
    (noise : nat -> R) (now : R) (s s' : app.RobotState) (events : list app.event) :
  app.update_robot_state_pass noise now s = Done (s', events) ->
  length (app.joint_angles s') = length (app.joint_angles s)
  /\ (forall i, (i < 6)%nat ->
        exists r, app.joint_angles s' !! i = Some (PFloat r) /\ - PI <= r <= PI)
  /\ (exists x y z a0,
        app.end_effector_pose s'
        = [PFloat x; PFloat y; PFloat z; PFloat 0; PFloat 0; a0]
        /\ x * x + y * y = 0.25 /\ 0.1 <= z <= 0.5
        /\ app.joint_angles s' !! 0%nat = Some a0)
  /\ app.last_update s' = now
  /\ events = [app.EmitState s'].
Proof.
  unfold app.update_robot_state_pass.
  destruct (app.jitter noise (seq 0 6) (app.joint_angles s)) as [angles|e] eqn:Hj;
    cbn [app.obind]; [|discriminate].
  apply jitter_spec in Hj as (Hlen & Hin & _).
  destruct (app.getitem_float angles 0) as [q0|e]; cbn [app.obind]; [|discriminate].
  destruct (app.getitem_float angles 1) as [q1|e]; cbn [app.obind]; [|discriminate].
  destruct (angles !! 0%nat) as [a0|] eqn:Ha0; [|discriminate].
  intros [= <- <-]. cbn [app.joint_angles app.end_effector_pose app.last_update].
  split; [exact Hlen|]. split.
  - intros i Hi. apply Hin. apply elem_of_seq. lia.
  - split; [|split; reflexivity].
    exists (0.5 * cos q0), (0.5 * sin q0), (0.3 + 0.2 * sin q1), a0.
    split; [reflexivity|]. split; [|split; [|exact Ha0]].
    + pose proof (sin2_cos2 q0) as H. unfold Rsqr in H. nra.
    + pose proof (SIN_bound q1) as H. lra.
Qed.

Lemma update_robot_state_pass_bounds_witness :
  exists s' events,
    app.update_robot_state_pass (fun _ => 0) 1 (app.initial_state 0)
    = Done (s', events)
    /\ length (app.joint_angles s') = length (app.joint_angles (app.initial_state 0))
    /\ (forall i, (i < 6)%nat ->
          exists r, app.joint_angles s' !! i = Some (PFloat r) /\ - PI <= r <= PI)
    /\ (exists x y z a0,
          app.end_effector_pose s'
          = [PFloat x; PFloat y; PFloat z; PFloat 0; PFloat 0; a0]
          /\ x * x + y * y = 0.25 /\ 0.1 <= z <= 0.5
          /\ app.joint_angles s' !! 0%nat = Some a0)
    /\ app.last_update s' = 1
    /\ events = [app.EmitState s'].
Proof.
  eexists. eexists. split; [reflexivity|].
  apply (update_robot_state_pass_bounds (fun _ => 0) 1 (app.initial_state 0)).
  reflexivity.
Defined.

Lemma list_index_in_range (len : nat) (z : Z) :
  (- Z.of_nat len <= z < Z.of_nat len)%Z ->
  exists i, app.list_index len (PInt z) = Done i
            /\ (i < len)%nat
            /\ Z.of_nat i = (if (0 <=? z)%Z then z else Z.of_nat len + z)%Z.
Proof.
  intros Hz. cbn [app.list_index].
  destruct (Z.leb_spec 0 z) as [Hpos|Hneg].
  - destruct (Z.ltb_spec z (Z.of_nat len)); [|lia]. cbn [andb].
    exists (Z.to_nat z). split; [reflexivity|]. split; lia.
  - cbn [andb].
    destruct (Z.leb_spec (- Z.of_nat len) z); [|lia].
    destruct (Z.ltb_spec z 0); [|lia]. cbn [andb].
    exists (Z.to_nat (Z.of_nat len + z)). split; [reflexivity|]. split; lia.
Qed.

Lemma list_index_out_of_range (len : nat) (z : Z) :
  (z < - Z.of_nat len \/ Z.of_nat len <= z)%Z ->
  app.list_index len (PInt z) = Throws (Other IndexError).
Proof.
  intros Hz. cbn [app.list_index].
  destruct (Z.leb_spec 0 z); destruct (Z.ltb_spec z (Z.of_nat len));
    destruct (Z.leb_spec (- Z.of_nat len) z); destruct (Z.ltb_spec z 0);
    cbn [andb]; try reflexivity; lia.
Qed.

(** X21.  A joint-control message with an integer [joint_id] and an [angle]
    that is not null: when the id is a valid subscript of the angle list,
    counting from the end if negative, exactly that entry becomes the angle
    as it was sent (it is not clipped or checked), nothing else in the state
    changes, and an acknowledgement and the new state are emitted; otherwise
    the handler raises [IndexError] and emits nothing. *)
Theorem handle_joint_control_sets_one_joint
    (d : gmap string pyvalue) (s : app.RobotState) (z : Z) (angle : pyvalue) :
  d !! "joint_id" = Some (PInt z) ->
  d !! "angle" = Some angle ->
  angle <> PNone ->
  let len := length (app.joint_angles s) in
  ((- Z.of_nat len <= z < Z.of_nat len)%Z ->
   exists i s',
     app.handle_joint_control (PDict d) s
     = Done (s', [ app.Emit "control_ack"
                     (PDict {[ "joint_id" := PInt z; "angle" := angle;
                               "status" := PStr "success" ]});
                   app.EmitState s' ])
     /\ Z.of_nat i = (if (0 <=? z)%Z then z else Z.of_nat len + z)%Z
     /\ app.joint_angles s' !! i = Some angle
     /\ (forall j, j <> i -> app.joint_angles s' !! j = app.joint_angles s !! j)
     /\ app.end_effector_pose s' = app.end_effector_pose s
     /\ app.joint_velocities s' = app.joint_velocities s
     /\ app.joint_torques s' = app.joint_torques s
     /\ app.is_connected s' = app.is_connected s
     /\ app.last_update s' = app.last_update s)
  /\ ((z < - Z.of_nat len \/ Z.of_nat len <= z)%Z ->
      app.handle_joint_control (PDict d) s = Throws (Other IndexError)).
Proof.
  intros Hid Hangle Hnn len.
  assert (Hpresent : app.is_not_None angle = true)
    by (destruct angle; try reflexivity; contradiction).
  unfold app.handle_joint_control. cbn [py_get app.obind].
  rewrite Hid, Hangle. cbn [default from_option]. unfold Datatypes.id.
  rewrite Hpresent. cbn [app.is_not_None andb]. fold len. split.
  - intros Hz. destruct (list_index_in_range len z Hz) as (i & -> & Hi & Hidx).
    cbn [app.obind]. exists i. eexists. split; [reflexivity|].
    cbn [app.joint_angles app.end_effector_pose app.joint_velocities
         app.joint_torques app.is_connected app.last_update].
    split; [exact Hidx|].
    split; [apply list_lookup_insert_eq; exact Hi|].
    split; [intros j Hj; apply list_lookup_insert_ne; congruence|].
    repeat split.
  - intros Hz. rewrite (list_index_out_of_range len z Hz). reflexivity.
Qed.

Lemma handle_joint_control_sets_one_joint_witness :
  exists i s',
    app.handle_joint_control
      (PDict {[ "joint_id" := PInt (-1); "angle" := PFloat 10 ]})
      (app.initial_state 0)
    = Done (s', [ app.Emit "control_ack"
                    (PDict {[ "joint_id" := PInt (-1); "angle" := PFloat 10;
                              "status" := PStr "success" ]});
                  app.EmitState s' ])
    /\ Z.of_nat i = (if (0 <=? -1)%Z then -1 else Z.of_nat 6 + -1)%Z
    /\ app.joint_angles s' !! i = Some (PFloat 10).
Proof.
  destruct (handle_joint_control_sets_one_joint
              {[ "joint_id" := PInt (-1); "angle" := PFloat 10 ]}
              (app.initial_state 0) (-1) (PFloat 10))
    as [Hin _]; try reflexivity; try discriminate.
  destruct Hin as (i & s' & H & Hi & Hset & _).
  - cbn [app.initial_state app.joint_angles length replicate]. lia.
  - exists i, s'. repeat split; assumption.
Defined.

(** X22.  A joint-control message without [joint_id] or without [angle]
    (absent or null) changes nothing and emits nothing; a message that is
    not an object raises [AttributeError]. *)
Theorem handle_joint_control_ignores_incomplete
    (data : pyvalue) (s : app.RobotState) :
  match data with
  | PDict d =>
      (default PNone (d !! "joint_id") = PNone
       \/ default PNone (d !! "angle") = PNone) ->
      app.handle_joint_control data s = Done (s, [])
  | _ => app.handle_joint_control data s = Throws AttributeError
  end.
Proof.
  destruct data as [| | | | | |d]; try reflexivity.
  unfold app.handle_joint_control. cbn [py_get app.obind].
  intros [-> | ->]; cbn [app.is_not_None andb]; [reflexivity|].
  rewrite andb_false_r. reflexivity.
Qed.

Lemma handle_joint_control_effect
    (d : gmap string pyvalue) (s : app.RobotState) (z : Z) (angle : pyvalue) :
  d !! "joint_id" = Some (PInt z) ->
  d !! "angle" = Some angle ->
  angle <> PNone ->
  (6 <= length (app.joint_angles s))%nat ->
  (0 <= z < 6)%Z ->
  exists s' events,
    app.handle_joint_control (PDict d) s = Done (s', events)
    /\ app.joint_angles s' = <[Z.to_nat z := angle]> (app.joint_angles s).
Proof.
  intros Hid Hangle Hnn Hlen Hz.
  assert (Hpresent : app.is_not_None angle = true)
    by (destruct angle; try reflexivity; contradiction).
  unfold app.handle_joint_control. cbn [py_get app.obind].
  rewrite Hid, Hangle. cbn [default from_option]. unfold Datatypes.id.
  rewrite Hpresent. cbn [app.is_not_None andb app.list_index].
  destruct (Z.leb_spec 0 z); [|lia].
  destruct (Z.ltb_spec z (Z.of_nat (length (app.joint_angles s)))); [|lia].
  cbn [andb app.obind]. eexists. eexists. split; reflexivity.
Qed.

Lemma as_float_error (v : pyvalue) (e : error) :
  app.as_float v = Throws e -> e = TypeError.
Proof. destruct v; cbn [app.as_float]; congruence. Qed.

Lemma jitter_poisoned (noise : nat -> R) (indices : list nat) :
  forall angles i v,
    i ∈ indices ->
    Forall (fun j => (j < length angles)%nat) indices ->
    angles !! i = Some v ->
    app.as_float v = Throws TypeError ->
    app.jitter noise indices angles = Throws TypeError.
Proof.
  induction indices as [|j indices IH]; intros angles i v Hi Hall Hv Hbad.
  - apply elem_of_nil in Hi. contradiction.
  - cbn [app.jitter]. inversion_clear Hall as [|? ? Hj Hrest].
    destruct (decide (j = i)) as [->|Hne].
    + rewrite Hv, Hbad. reflexivity.
    + destruct (lookup_lt_is_Some_2 angles j Hj) as [u Hu]. rewrite Hu.
      destruct (app.as_float u) as [x|e] eqn:Hx; cbn [app.obind].
      * apply (IH _ i v).
        -- apply elem_of_cons in Hi as [->|Hi]; [contradiction|exact Hi].
        -- rewrite !length_insert. exact Hrest.
        -- rewrite !list_lookup_insert_ne by congruence. exact Hv.
        -- exact Hbad.
      * apply as_float_error in Hx. rewrite Hx. reflexivity.
Qed.

(** X23.  The angle of a joint-control message is stored unchecked, so a
    message that sets one of the six joints to a value that is not a number
    (a string, a list, an object) is accepted, and the next pass of the state
    update then raises [TypeError]. *)
Theorem joint_control_then_update_raises
    (d : gmap string pyvalue) (s : app.RobotState) (z : Z) (angle : pyvalue)
    (noise : nat -> R) (now : R) :
  d !! "joint_id" = Some (PInt z) ->
  d !! "angle" = Some angle ->
  angle <> PNone ->
  app.as_float angle = Throws TypeError ->
  (6 <= length (app.joint_angles s))%nat ->
  (0 <= z < 6)%Z ->
  exists s' events,
    app.handle_joint_control (PDict d) s = Done (s', events)
    /\ app.update_robot_state_pass noise now s' = Throws TypeError.
Proof.
  intros Hid Hangle Hnn Hbad Hlen Hz.
  destruct (handle_joint_control_effect d s z angle Hid Hangle Hnn Hlen Hz)
    as (s' & events & H & Hs').
  exists s', events. split; [exact H|].
  unfold app.update_robot_state_pass.
  rewrite (jitter_poisoned noise (seq 0 6) (app.joint_angles s') (Z.to_nat z) angle).
  - reflexivity.
  - apply elem_of_seq. lia.
  - rewrite Hs', length_insert. apply Forall_forall. intros j Hj.
    apply elem_of_seq in Hj. lia.
  - rewrite Hs'. apply list_lookup_insert_eq. lia.
  - exact Hbad.
Qed.

Lemma joint_control_then_update_raises_witness :
  exists s' events,
    app.handle_joint_control
      (PDict {[ "joint_id" := PInt 2; "angle" := PStr "fast" ]})
      (app.initial_state 0) = Done (s', events)
    /\ app.update_robot_state_pass (fun _ => 0) 1 s' = Throws TypeError.
Proof.
  apply (joint_control_then_update_raises
           {[ "joint_id" := PInt 2; "angle" := PStr "fast" ]}
           (app.initial_state 0) 2 (PStr "fast") (fun _ => 0) 1);
    try reflexivity; try discriminate;
    cbn [app.initial_state app.joint_angles length replicate]; lia.
Defined.

(** X24.  The command handler refuses every body that Python counts as
    false, the empty object included: it answers "No data provided", queues
    nothing and emits nothing.  A body that is not false and not an object
    raises [AttributeError]. *)
Theorem send_command_refuses_empty_body
    (py_str : pyvalue -> string) (data : pyvalue) (now : R)
    (control_commands : list app.command) :
  (truthy data = false ->
   app.send_command py_str data now control_commands
   = Done (PDict {[ "status" := PStr "error";
                    "message" := PStr "No data provided" ]},
           control_commands, []))
  /\ truthy (PDict ∅) = false
  /\ (truthy data = true -> (forall d, data <> PDict d) ->
      app.send_command py_str data now control_commands = Throws AttributeError).
Proof.
  split; [|split].
  - intros H. unfold app.send_command. rewrite H. reflexivity.
  - reflexivity.
  - intros H Hnd. unfold app.send_command. rewrite H. cbn [negb].
    destruct data as [| | | | | |d]; try reflexivity.
    exfalso. apply (Hnd d). reflexivity.
Qed.

(** X25.  An accepted command is put at the end of the queue, stamped with
    the time, with type [None] and parameters [{}] when the body does not
    give them, and announced once; a pass of the processing loop takes the
    oldest command, so commands leave the queue in the order they came. *)
Theorem send_command_queues_in_order
    (py_str : pyvalue -> string) (d : gmap string pyvalue) (now : R)
    (control_commands : list app.command) :
  d <> ∅ ->
  let c := {| app.command_type := default PNone (d !! "type");
              app.parameters := default (PDict ∅) (d !! "parameters");
              app.timestamp := now |} in
  app.send_command py_str (PDict d) now control_commands
  = Done (PDict {[ "status" := PStr "success";
                   "message" := PStr ("Command " +:+ py_str (app.command_type c)
                                      +:+ " queued") ]},
          control_commands ++ [c],
          [ app.Emit "command"
              (PDict {[ "type" := app.command_type c;
                        "parameters" := app.parameters c ]}) ])
  /\ app.process_control_commands_pass (control_commands ++ [c])
     = match control_commands with
       | [] => (Some c, [])
       | oldest :: rest => (Some oldest, rest ++ [c])
       end
  /\ app.process_control_commands_pass [] = (None, []).
Proof.
  intros Hd c. split; [|split].
  - unfold app.send_command. cbn [truthy].
    rewrite bool_decide_eq_false_2 by exact Hd. reflexivity.
  - destruct control_commands; reflexivity.
  - reflexivity.
Qed.

Lemma send_command_queues_in_order_witness :
  app.process_control_commands_pass
    ([] ++ [ {| app.command_type := default PNone
                  (({[ "type" := PStr "home" ]} : gmap string pyvalue) !! "type");
                app.parameters := default (PDict ∅)
                  (({[ "type" := PStr "home" ]} : gmap string pyvalue) !! "parameters");
                app.timestamp := 1 |} ])
  = (Some {| app.command_type := PStr "home"; app.parameters := PDict ∅;
             app.timestamp := 1 |}, []).
Proof.
  destruct (send_command_queues_in_order (fun _ => "") {[ "type" := PStr "home" ]}
              1 []) as (_ & H & _).
  - apply insert_non_empty.
  - exact H.
Defined.
